(** * Service registration and discovery layer (ultimate-backend)

    A shallow embedding of

    - [packages/cloud/src/lib/utils/provider.util.ts]
      ([getSharedProviderUtils]), and
    - [packages/consul/src/lib/service-registry/consul-service-registry.ts]
      (class [ConsulServiceRegistry]),

    followed by the properties of the registration life cycle, of the
    retrying registrar, of the watch engine and of the status calls. *)

From Stdlib Require Import ZArith Lia.
From stdpp Require Import base strings gmap list.

Set Warnings "-register-all".
Local Open Scope string_scope.

(** ** JavaScript values *)

Module Js.

(** Plain data as it travels through option objects and backend payloads. *)
Inductive Val :=
| Undefined
| Null
| Bool (b : bool)
| Num (z : Z)
| Str (s : string)
| Arr (l : list Val)
| Object (o : gmap string Val).

(** An object is the finite map of its own enumerable properties. *)
Abbreviation Obj := (gmap string Val).

(** [ToBoolean]. *)
Definition truthy (v : Val) : bool :=
  match v with
  | Undefined | Null => false
  | Bool b => b
  | Num z => negb (z =? 0)%Z
  | Str s => negb (String.eqb s "")
  | Arr _ | Object _ => true
  end.

(** [v == null]: true of [null] and [undefined] only. *)
Definition is_nullish (v : Val) : bool :=
  match v with
  | Undefined | Null => true
  | _ => false
  end.

Definition is_undefined (v : Val) : bool :=
  match v with
  | Undefined => true
  | _ => false
  end.

(** [o[k]] for an own property, [undefined] when [o] has none. *)
Definition get (o : Obj) (k : string) : Val := default Undefined (o !! k).

(** [o?.[k]] where [o] may be [undefined]. *)
Definition opt_get (o : option Obj) (k : string) : Val :=
  match o with
  | Some o => get o k
  | None => Undefined
  end.

(** [Object.keys(o)], as a set of names. The map enumerates its keys in
    an order of its own; JavaScript enumerates in insertion order, so
    the order of this list stands for nothing: statements about the
    catalog listener either use it as a set or take the listing from
    outside ([on_catalog_change_listed]). *)
Definition keys (o : Obj) : list string := (map_to_list o).*1.

(** [{ ...a, ...b }]: the properties of [b] are written after those of
    [a] and win. Spreading [undefined] or [null] contributes nothing. *)
Definition spread (a b : Obj) : Obj := b ∪ a.

Definition spread_opt (o : option Obj) : Obj := default ∅ o.

(** Thrown values. [Err] is a plain [Error], [TypeError] the error the
    runtime raises itself (property access on [undefined], calling a
    non-function, assigning to a getter-only property in strict code). *)
Inductive Error :=
| Err (msg : string)
| TypeError (msg : string).

(** [`${e}`]. *)
Definition error_string (e : Error) : string :=
  match e with
  | Err msg => "Error: " +:+ msg
  | TypeError msg => "TypeError: " +:+ msg
  end.

End Js.

(** ** Option objects shared by the wiring utility and the registry *)

(** [HeartbeatOptions] of the common package. *)
Record HeartbeatOptions := mkHeartbeat {
  enabled : bool;
  ttlInSeconds : option Z;
}.

(** The value injected under [SERVICE_REGISTRY_CONFIG]: the three option
    groups, each of which may be [undefined]. Discovery options and service
    options are open objects (they are spread and destructured). *)
Record RegistryOptions := mkOptions {
  service : option Js.Obj;
  discovery : option Js.Obj;
  heartbeat : option HeartbeatOptions;
}.

(** ** provider.util.ts *)

Module ProviderUtil.

Record RegistryConfiguration := mkConfiguration {
  discoverer : string;
  cfg_service : option Js.Obj;
  cfg_discovery : option Js.Obj;
  cfg_heartbeat : option HeartbeatOptions;
}.

Definition SERVICE_REGISTRY_CONFIG : string := "SERVICE_REGISTRY_CONFIG".

(** [useValue] starts as the empty object literal and is replaced in the
    branch of a known discoverer. *)
Inductive UseValue :=
| EmptyObject
| Options (o : RegistryOptions).

Inductive Provider :=
| Class (name : string)
| Value (provide : string) (useValue : UseValue).

(** What a call comes to: the provider list, an exception out of
    [validateOptions], or the process exit Nest's [loadPackage] performs
    when the backend package cannot be required. *)
Inductive Wiring :=
| Wired (providers : list Provider)
| Invalid (e : Js.Error)
| Exited (code : Z).

Section Wiring.

(** [./validate-options] is not part of the sources at hand; it is
    taken as it is called: it returns the options the discoverer is
    read from, or throws. Here it leaves the object it is given as it
    was; [getSharedProviderUtils_by_reference] below lets it write to
    that object, as the code allows. *)
Variable validateOptions :
  RegistryConfiguration → Js.Error + RegistryConfiguration.

(** Whether [require(name)] succeeds. *)
Variable installed : string → bool.

(** The two classes pushed from a backend package together with the
    configuration written for it. *)
Definition backend_branch (package registry client : string)
    (options : RegistryConfiguration) : Wiring + (list Provider * UseValue) :=
  if installed package then
    inr ([Class registry; Class client],
         Options {| service := cfg_service options;
                    discovery :=
                      Some (Js.spread {[ "failFast" := Js.Bool true ]}
                                      (Js.spread_opt (cfg_discovery options)));
                    heartbeat := cfg_heartbeat options |})
  else inl (Exited 1).

Definition local_branch (options : RegistryConfiguration)
    : Wiring + (list Provider * UseValue) :=
  inr ([Class "MdnsServiceRegistry"],
       Options {| service := cfg_service options;
                  discovery := cfg_discovery options;
                  heartbeat := cfg_heartbeat options |}).

Definition getSharedProviderUtils (options : RegistryConfiguration) : Wiring :=
  match validateOptions options with
  | inl e => Invalid e
  | inr registryOption =>
    let branch :=
      if String.eqb (discoverer registryOption) "consul" then
        backend_branch "@ultimate-backend/consul"
          "ConsulServiceRegistry" "ConsulDiscoveryClient" options
      else if String.eqb (discoverer registryOption) "etcd" then
        backend_branch "@ultimate-backend/etcd"
          "EtcdServiceRegistry" "EtcdDiscoveryClient" options
      else if String.eqb (discoverer registryOption) "zookeeper" then
        backend_branch "@ultimate-backend/zookeeper"
          "ZookeeperServiceRegistry" "ZookeeperDiscoveryClient" options
      else if String.eqb (discoverer registryOption) "local" then
        local_branch options
      else inr ([], EmptyObject) in
    match branch with
    | inl w => w
    | inr (sharedProviders, useValue) =>
      Wired ((sharedProviders
               ++ [Value SERVICE_REGISTRY_CONFIG useValue; Class "ServiceStore"])%list)
    end
  end.

(** The package a discoverer is loaded from. *)
Definition package_of (d : string) : string := "@ultimate-backend/" +:+ d.

(** The options a provider list injects under [SERVICE_REGISTRY_CONFIG]. *)
Fixpoint injected_options (ps : list Provider) : option RegistryOptions :=
  match ps with
  | [] => None
  | Value token (Options o) :: ps' =>
    if String.eqb token SERVICE_REGISTRY_CONFIG then Some o
    else injected_options ps'
  | _ :: ps' => injected_options ps'
  end.

End Wiring.

(** *** The options object, shared with [validateOptions]

    [getSharedProviderUtils] hands the caller's object itself to
    [validateOptions] and reads [options.service], [options.discovery]
    and [options.heartbeat] only after that call, so whatever
    [validateOptions] writes into its argument (a default it fills in,
    say) is what those reads see. [Validation] is what one call comes
    to: the value it returns, and the caller's object as the call
    leaves it. The body after the call is the one above, run on the
    object as it then is. *)
Record Validation := mkValidation {
  returned : RegistryConfiguration;
  options_afterwards : RegistryConfiguration;
}.

Definition getSharedProviderUtils_by_reference
    (validateOptions : RegistryConfiguration → Js.Error + Validation)
    (installed : string → bool) (options : RegistryConfiguration) : Wiring :=
  match validateOptions options with
  | inl e => Invalid e
  | inr v =>
    getSharedProviderUtils (λ _, inr (returned v)) installed (options_afterwards v)
  end.

End ProviderUtil.

(** ** consul-service-registry.ts *)

Module Registry.

(** *** Collaborators *)

(** What a backend call answers: the rejection or the value. *)
Abbreviation Reply A := (Js.Error + A)%type.

(** A callback of a rebuild waiting at its [await]: the service name it
    was called with and the answer it resumes with. *)
Abbreviation Waiting := (string * Reply (list Js.Val))%type.

(** One entry of [health.checks], with the fields of Consul's HTTP API
    (all of them JSON strings). *)
Record Check := mkCheck {
  CheckID : string;
  Name : string;
  ServiceID : string;
  ServiceName : string;
  Status : string;
}.

(** The part of the Consul client the registry calls, over a backend
    state [B]: every call answers and moves the backend on. *)
Class ConsulApi (B : Type) := {
  agent_service_register : Js.Obj → B → Reply unit * B;
  agent_service_deregister : Js.Obj → B → Reply unit * B;
  agent_service_maintenance : string → bool → B → Reply unit * B;
  health_checks : string → B → Reply (list Check) * B;
  health_service : string → B → Reply (list Js.Val) * B;
}.

(** [ConsulClient]: the connected [consul] instance, if any, and the ACL
    token of its configuration. *)
Record ConsulClient (B : Type) := mkClient {
  consul : option B;
  aclToken : option string;
}.
Arguments mkClient {B}.
Arguments consul {B}.
Arguments aclToken {B}.

(** [Registration<Service>] as the registry reads it, through its three
    getters. *)
Record Registration := mkRegistration {
  getInstanceId : string;
  getServiceId : string;
  getService : Js.Obj;
}.

(** The arguments the registry hands to [ConsulRegistrationBuilder]. *)
Record BuilderInput := mkBuilderInput {
  b_discoveryOptions : Js.Obj;
  b_heartbeatOptions : HeartbeatOptions;
  b_host : Js.Val;
  b_port : Js.Val;
  b_tags : Js.Val;
  b_status : Js.Val;
  b_version : Js.Val;
  b_metadata : Js.Val;
  b_serviceName : Js.Val;
  b_instanceId : Js.Val;
}.

(** Modelled from the spec: [TtlScheduler] of the common package, which
    is not among the sources. It keeps one periodic timer per enrolled
    instance id; [add] enrolls an id, [remove] cancels its timer and is
    a no-op on an id that is not enrolled. *)
Record TtlScheduler := mkScheduler {
  tasks : gset string;
}.

Definition TtlScheduler_add (id : string) (s : TtlScheduler) : TtlScheduler :=
  {| tasks := {[ id ]} ∪ tasks s |}.

Definition TtlScheduler_remove (id : string) (s : TtlScheduler) : TtlScheduler :=
  {| tasks := tasks s ∖ {[ id ]} |}.

(** *** Watch handles *)

Inductive WatchMethod :=
| CatalogServiceList
| HealthService (serviceName : string).

(** A [Watch] of the consul package: what it polls, the options it was
    created with, and whether [end()] was called on it. *)
Record Watch := mkWatch {
  method : WatchMethod;
  watch_options : Js.Obj;
  ended : bool;
}.

Definition end_handle (wt : Watch) : Watch :=
  {| method := method wt; watch_options := watch_options wt; ended := true |}.

(** A handle that polls the instances of [name] and was not ended. *)
Definition watches_service (name : string) (wt : Watch) : bool :=
  match method wt with
  | HealthService n => String.eqb n name && negb (ended wt)
  | CatalogServiceList => false
  end.

(** [this.watchers] is created by [new Map()] but written and read with
    the bracket operator. The two stores of that object are kept apart:
    [entries] is the Map's own data, the one [forEach], [get] and [set]
    work on; [props] are the ordinary properties bracket access reads
    and writes. Handles are indices into the list of all watches. *)
Record WatcherMap := mkWatcherMap {
  entries : list (string * nat);
  props : gmap string nat;
}.

Definition new_Map : WatcherMap := {| entries := []; props := ∅ |}.

(** Names a Map object inherits: reading them with brackets does not
    give [undefined]. *)
Definition Map_prototype : list string :=
  ["constructor"; "get"; "set"; "has"; "delete"; "clear"; "entries";
   "forEach"; "keys"; "values"; "size"].

Definition Object_prototype : list string :=
  ["hasOwnProperty"; "isPrototypeOf"; "propertyIsEnumerable";
   "toLocaleString"; "toString"; "valueOf"; "__proto__";
   "__defineGetter__"; "__defineSetter__"; "__lookupGetter__";
   "__lookupSetter__"].

Definition inherited (name : string) : bool :=
  bool_decide (name ∈ (Map_prototype ++ Object_prototype)%list).

(** What [this.watchers[name]] evaluates to. *)
Inductive Member :=
| OwnWatch (h : nat)
| InheritedTruthy
| InheritedSize
| Absent.

Definition member (m : WatcherMap) (name : string) : Member :=
  match props m !! name with
  | Some h => OwnWatch h
  | None =>
    if String.eqb name "size" then InheritedSize
    else if inherited name then InheritedTruthy
    else Absent
  end.

(** *** Instrumentation *)

Inductive Level := LOG | WARN | ERROR.

Inductive Message :=
| Text (s : string)
| Thrown (e : Js.Error).

(** Every call that leaves the registry, in the order it is made. *)
Inductive Event :=
| Logged (lvl : Level) (msg : Message)
| AgentRegister (svc : Js.Obj) (r : Reply unit)
| AgentDeregister (opts : Js.Obj) (r : Reply unit)
| AgentMaintenance (id : string) (enable : bool) (r : Reply unit)
| HealthChecks (sid : string)
| HealthServiceQuery (serviceName : string)
| WatchCreated (h : nat) (m : WatchMethod)
| WatchEnded (h : nat)
| SchedulerAdd (id : string)
| SchedulerRemove (id : string)
| SetServices (serviceName : string).

(** How an [async] method comes out: it returns, it throws (its promise
    rejects), or its promise is never settled. *)
Inductive Outcome (A : Type) :=
| Return (a : A)
| Throw (e : Js.Error)
| Hang.
Arguments Return {A}.
Arguments Throw {A}.
Arguments Hang {A}.

(** The promise built in [register]: the first of [resolve]/[reject]
    settles it, later calls are ignored. *)
Inductive Promise :=
| Pending
| Resolved
| Rejected (e : Js.Error).

Definition settle (p q : Promise) : Promise :=
  match p with
  | Pending => q
  | _ => p
  end.

(** [retry.operation()] without options: ten retries, factor 2, first
    delay one second, no randomisation and no overall time limit. The
    list holds the delays still to be used; [operation.retry(err)] takes
    the first one and arms a timer, or answers [false] when none is left. *)
Definition retry_timeouts : list Z :=
  map (λ k, 1000 * 2 ^ Z.of_nat k)%Z (seq 0 10).

Definition WATCH_TIMEOUT : Z := 305000.

Definition MAINTENANCE : string := "Service Maintenance Mode".

(** *** The registry and its surroundings *)

Section Registry.

Context {B : Type} `{!ConsulApi B}.

(** [ServiceInstance] and [consulServiceToServiceInstance] (from
    [../utils]) are not among the sources; the conversion is taken as
    the pure function it is called as. *)
Context {ServiceInstance : Type}.
Variable consulServiceToServiceInstance : list Js.Val → list ServiceInstance.

(** [ConsulRegistrationBuilder] is not among the sources either:
    [build()] gives the registration or throws. *)
Variable build : BuilderInput → Reply Registration.

(** The fields of [ConsulServiceRegistry], then what it holds
    references to: the client, every watch handle created so far, the
    [ServiceStore], and the record of calls made. *)
Record World := mkWorld {
  options : RegistryOptions;
  registration : option Registration;
  ttlScheduler : option TtlScheduler;
  watcher : option nat;
  watchers : WatcherMap;
  client : ConsulClient B;
  handles : list Watch;
  serviceStore : gmap string (list ServiceInstance);
  trace : list Event;
}.

Definition set_registration (r : option Registration) (w : World) : World :=
  mkWorld (options w) r (ttlScheduler w) (watcher w) (watchers w)
          (client w) (handles w) (serviceStore w) (trace w).

Definition set_ttlScheduler (s : option TtlScheduler) (w : World) : World :=
  mkWorld (options w) (registration w) s (watcher w) (watchers w)
          (client w) (handles w) (serviceStore w) (trace w).

Definition set_watcher (h : option nat) (w : World) : World :=
  mkWorld (options w) (registration w) (ttlScheduler w) h (watchers w)
          (client w) (handles w) (serviceStore w) (trace w).

Definition set_watchers (m : WatcherMap) (w : World) : World :=
  mkWorld (options w) (registration w) (ttlScheduler w) (watcher w) m
          (client w) (handles w) (serviceStore w) (trace w).

Definition set_client (c : ConsulClient B) (w : World) : World :=
  mkWorld (options w) (registration w) (ttlScheduler w) (watcher w)
          (watchers w) c (handles w) (serviceStore w) (trace w).

Definition set_handles (hs : list Watch) (w : World) : World :=
  mkWorld (options w) (registration w) (ttlScheduler w) (watcher w)
          (watchers w) (client w) hs (serviceStore w) (trace w).

Definition set_serviceStore (st : gmap string (list ServiceInstance))
    (w : World) : World :=
  mkWorld (options w) (registration w) (ttlScheduler w) (watcher w)
          (watchers w) (client w) (handles w) st (trace w).

Definition set_trace (t : list Event) (w : World) : World :=
  mkWorld (options w) (registration w) (ttlScheduler w) (watcher w)
          (watchers w) (client w) (handles w) (serviceStore w) t.

(** Methods run on the world and come out in one of the three ways. *)
Definition M (A : Type) : Type := World → Outcome A * World.

Definition ret {A} (a : A) : M A := λ w, (Return a, w).

Definition bind {A C} (m : M A) (k : A → M C) : M C :=
  λ w, match m w with
       | (Return a, w') => k a w'
       | (Throw e, w') => (Throw e, w')
       | (Hang, w') => (Hang, w')
       end.

Definition throw {A} (e : Js.Error) : M A := λ w, (Throw e, w).

(** [try { m } catch (e) { h e }]. *)
Definition try_catch {A} (m : M A) (h : Js.Error → M A) : M A :=
  λ w, match m w with
       | (Throw e, w') => h e w'
       | r => r
       end.

(** The promise of [m] observed rather than awaited. *)
Definition settled {A} (m : M A) : M (Reply A) :=
  λ w, match m w with
       | (Return a, w') => (Return (inr a), w')
       | (Throw e, w') => (Return (inl e), w')
       | (Hang, w') => (Hang, w')
       end.

Definition gets {A} (f : World → A) : M A := λ w, (Return (f w), w).

Definition modify (f : World → World) : M unit := λ w, (Return tt, f w).

Definition emit (ev : Event) : M unit :=
  modify (λ w, set_trace (trace w ++ [ev])%list w).

Definition of_reply {A} (r : Reply A) : M A :=
  match r with
  | inl e => throw e
  | inr a => ret a
  end.

#[export] Instance M_ret : MRet M := @ret.
#[export] Instance M_bind : MBind M := λ A C k m, bind m k.

(** [this.logger]. *)
Definition logger (lvl : Level) (msg : Message) : M unit := emit (Logged lvl msg).

(** [this.registration.m()]: a [TypeError] while [init] has not run. *)
Definition the_registration : M Registration :=
  r ← gets registration;
  match r with
  | Some reg => ret reg
  | None => throw (Js.TypeError "Cannot read properties of undefined")
  end.

(** A call on [this.client.consul]: a [TypeError] when the client holds
    no consul instance; otherwise the call is recorded with its answer,
    and a rejection is thrown at the [await]. *)
Definition call {A} (f : B → Reply A * B) (ev : Reply A → Event) : M A :=
  c ← gets client;
  match consul c with
  | None => throw (Js.TypeError "Cannot read properties of undefined")
  | Some b =>
    let '(r, b') := f b in
    modify (set_client {| consul := Some b'; aclToken := aclToken c |});;
    emit (ev r);;
    of_reply r
  end.

(** [consul.watch(...)]: a fresh running handle. *)
Definition consul_watch (m : WatchMethod) (opts : Js.Obj) : M nat :=
  hs ← gets handles;
  let h := length hs in
  modify (set_handles (hs ++ [mkWatch m opts false])%list);;
  emit (WatchCreated h m);;
  ret h.

(** [handle.end()]. *)
Definition Watch_end (h : nat) : M unit :=
  modify (λ w, set_handles (alter end_handle h (handles w)) w);;
  emit (WatchEnded h).

(** Modelled from the spec: [ServiceStore.setServices] of the common
    package, which is not among the sources; it replaces the entry of
    the name as a whole. *)
Definition setServices (name : string) (nodes : list ServiceInstance) : M unit :=
  modify (λ w, set_serviceStore (<[name := nodes]> (serviceStore w)) w);;
  emit (SetServices name).

Fixpoint forEach {A} (f : A → M unit) (l : list A) : M unit :=
  match l with
  | [] => ret tt
  | x :: l' => f x;; forEach f l'
  end.

(** *** The methods of [ConsulServiceRegistry] *)

Definition watchAll : M unit :=
  c ← gets client;
  match consul c with
  | None => ret tt
  | Some _ =>
    h ← consul_watch CatalogServiceList
          {[ "timeout" := Js.Num WATCH_TIMEOUT; "wait" := Js.Str "5m" ]};
    modify (set_watcher (Some h))
  end.

(** The builder calls of [init], each [this.options.service?.x] read
    through the optional chain. *)
Definition builder_input (o : RegistryOptions) (d : Js.Obj) (hb : HeartbeatOptions)
    : BuilderInput :=
  {| b_discoveryOptions := d;
     b_heartbeatOptions := hb;
     b_host := Js.opt_get (service o) "address";
     b_port := Js.opt_get (service o) "port";
     b_tags := Js.opt_get (service o) "tags";
     b_status := Js.opt_get (service o) "status";
     b_version := Js.opt_get (service o) "version";
     b_metadata := Js.opt_get (service o) "metadata";
     b_serviceName := Js.opt_get (service o) "name";
     b_instanceId := Js.opt_get (service o) "id" |}.

Definition init : M unit :=
  o ← gets options;
  match heartbeat o with
  | None => throw (Js.Err "HeartbeatOptions is required")
  | Some hb =>
    match discovery o with
    | None => throw (Js.Err "ConsulDiscoveryOptions is required.")
    | Some d =>
      reg ← of_reply (build (builder_input o d hb));
      modify (set_registration (Some reg));;
      (if enabled hb
       then modify (set_ttlScheduler (Some {| tasks := ∅ |}))
       else ret tt);;
      watchAll
    end
  end.

Definition token_object (c : ConsulClient B) : Js.Obj :=
  match aclToken c with
  | Some t => if Js.truthy (Js.Str t) then {[ "token" := Js.Str t ]} else ∅
  | None => ∅
  end.

Definition getToken : M Js.Obj :=
  c ← gets client;
  ret (token_object c).

(** [_.omitBy(check, _.isUndefined)]; an absent check gives [{}]. *)
Definition omit_undefined (check : Js.Val) : Js.Obj :=
  match check with
  | Js.Object o => filter (λ kv, Js.is_undefined kv.2 = false) o
  | _ => ∅
  end.

(** The object literal [generateService] returns:
    [{ ...rest, ...this.registration.getService(), check, ...this.getToken() }]. *)
Definition service_object (reg : Registration) (so token : Js.Obj) : Js.Obj :=
  let check := omit_undefined (Js.get (getService reg) "check") in
  let rest := delete "checks" so in
  Js.spread
    (Js.spread (Js.spread rest (getService reg))
               {[ "check" := Js.Object check ]})
    token.

Definition generateService : M Js.Obj :=
  reg ← the_registration;
  o ← gets options;
  match service o with
  | None => throw (Js.TypeError "Cannot destructure 'this.options.service'")
  | Some so =>
    token ← getToken;
    ret (service_object reg so token)
  end.

(** [service.check?.ttl]. *)
Definition check_ttl (svc : Js.Obj) : Js.Val :=
  match Js.get svc "check" with
  | Js.Object check => Js.get check "ttl"
  | _ => Js.Undefined
  end.

Definition TtlScheduler_call (f : TtlScheduler → TtlScheduler) (s : TtlScheduler)
    : M unit :=
  modify (set_ttlScheduler (Some (f s))).

Definition _internalRegister : M unit :=
  reg ← the_registration;
  logger LOG (Text ("registering service with id: " +:+ getInstanceId reg));;
  svc ← generateService;
  call (agent_service_register svc) (AgentRegister svc);;
  o ← gets options;
  match heartbeat o with
  | None => throw (Js.TypeError "Cannot read properties of undefined")
  | Some hb =>
    sched ← gets ttlScheduler;
    (if enabled hb then
       match sched with
       | Some s =>
         if negb (Js.is_nullish (check_ttl svc)) then
           TtlScheduler_call (TtlScheduler_add (getInstanceId reg)) s;;
           emit (SchedulerAdd (getInstanceId reg))
         else ret tt
       | None => ret tt
       end
     else ret tt);;
    logger LOG (Text "service registered")
  end.

Definition deregister : M unit :=
  reg ← the_registration;
  logger LOG (Text ("Deregistering service with consul: " +:+ getInstanceId reg));;
  try_catch
    (sched ← gets ttlScheduler;
     match sched with
     | Some s =>
       TtlScheduler_call (TtlScheduler_remove (getInstanceId reg)) s;;
       emit (SchedulerRemove (getInstanceId reg))
     | None => ret tt
     end;;
     token ← getToken;
     let opts := Js.spread {[ "id" := Js.Str (getInstanceId reg) ]} token in
     call (agent_service_deregister opts) (AgentDeregister opts);;
     logger LOG (Text ("Deregistered service with consul: " +:+ getInstanceId reg)))
    (λ e, logger ERROR (Thrown e)).

(** [close()]: not implemented in the source, its body is empty. *)
Definition close : M unit := ret tt.

Definition setStatus (status : string) : M unit :=
  if String.eqb status "OUT_OF_SERVICE" then
    reg ← the_registration;
    call (agent_service_maintenance (getInstanceId reg) true)
         (AgentMaintenance (getInstanceId reg) true)
  else if String.eqb status "UP" then
    reg ← the_registration;
    call (agent_service_maintenance (getInstanceId reg) false)
         (AgentMaintenance (getInstanceId reg) false)
  else throw (Js.Err ("Unknown status " +:+ status)).

(** The [for ... of] loop of [getStatus], which returns at the first
    maintenance check of the instance. *)
Fixpoint maintenance_marked (instanceId : string) (checks : list Check) : bool :=
  match checks with
  | [] => false
  | check :: rest =>
    if String.eqb (ServiceID check) instanceId then
      if String.eqb (Name check) MAINTENANCE then true
      else maintenance_marked instanceId rest
    else maintenance_marked instanceId rest
  end.

Definition getStatus : M Js.Obj :=
  reg ← the_registration;
  checks ← call (health_checks (getServiceId reg))
                (λ _, HealthChecks (getServiceId reg));
  if maintenance_marked (getInstanceId reg) checks
  then ret {[ "status" := Js.Str "OUT_OF_SERVICE" ]}
  else ret {[ "status" := Js.Str "UP" ]}.

(** One run of the callback given to [operation.attempt], followed by
    the runs the timers armed by [operation.retry] bring about.
    [timeouts] are the delays the operation has left and [p] is the
    promise [register] returned. A [TypeError] raised inside the
    [catch] block (no discovery options, no registration to print)
    rejects the callback's own promise only: [p] is left as it is and
    no timer is armed. *)
Fixpoint attempt (timeouts : list Z) (p : Promise) (w : World) : Promise * World :=
  match _internalRegister w with
  | (Return _, w1) => (settle p Resolved, w1)
  | (Hang, w1) => (p, w1)
  | (Throw e, w1) =>
    match discovery (options w1) with
    | None => (p, w1)
    | Some d =>
      let failFast :=
        if Js.truthy (Js.get d "failFast") then
          match registration w1 with
          | None => None
          | Some _ =>
            Some (settle p (Rejected e),
                  (logger WARN
                     (Text ("Fail fast is false. Error registering service with consul: [object Object] "
                            +:+ Js.error_string e))
                     w1).2)
          end
        else Some (p, w1) in
      match failFast with
      | None => (p, w1)
      | Some (p1, w2) =>
        match timeouts with
        | _ :: later => attempt later p1 w2
        | [] => (settle p1 (Rejected e), w2)
        end
      end
    end
  end.

(** [register()]: the promise, once every timer of the operation has
    fired. The world returned is the one reached then; the promise may
    have been settled by an earlier run. Without fail-fast the promise
    settles with the last run, so this is the moment the caller resumes.
    With fail-fast the first rejected run rejects the promise while
    timers are still armed: the caller resumes then, and what it does
    before the remaining runs is not part of this definition, which
    gives the runs and their outcome only. *)
Definition register : M unit :=
  λ w, let '(p, w') := attempt retry_timeouts Pending w in
       (match p with
        | Resolved => Return tt
        | Rejected e => Throw e
        | Pending => Hang
        end, w').

(** [this.watchers[serviceName] = handle], in strict code. *)
Definition assign_member (serviceName : string) (h : nat) : M unit :=
  ws ← gets watchers;
  match member ws serviceName with
  | InheritedSize =>
    throw (Js.TypeError "Cannot set property size of #<Map> which has only a getter")
  | _ =>
    modify (set_watchers {| entries := entries ws;
                            props := <[serviceName := h]> (props ws) |})
  end.

(** The options of a per-service watch. *)
Definition watch_options_for (serviceName : string) (token : Js.Obj) : Js.Obj :=
  Js.spread {[ "timeout" := Js.Num WATCH_TIMEOUT;
               "service" := Js.Str serviceName;
               "wait" := Js.Str "5m" ]} token.

Definition watch (serviceName : string) : M unit :=
  c ← gets client;
  match consul c with
  | None => ret tt
  | Some _ =>
    ws ← gets watchers;
    match member ws serviceName with
    | OwnWatch h => Watch_end h
    | InheritedTruthy =>
      throw (Js.TypeError "this.watchers[serviceName].end is not a function")
    | InheritedSize | Absent => ret tt
    end;;
    token ← getToken;
    h ← consul_watch (HealthService serviceName) (watch_options_for serviceName token);
    assign_member serviceName h
  end.

(** The listener [watch] registers for ['change'] on the handle of
    [serviceName]. *)
Definition on_service_change (serviceName : string) (nodes : list Js.Val) : M unit :=
  setServices serviceName (consulServiceToServiceInstance nodes).

(** [Promise.all]: rejects with the first rejection, resolves when
    every promise has resolved. *)
Fixpoint Promise_all (outcomes : list (Reply unit)) : M unit :=
  match outcomes with
  | [] => ret tt
  | inl e :: _ => throw e
  | inr _ :: rest => Promise_all rest
  end.

(** The callback of [services.map] in [buildServiceStore], in its two
    parts: up to the [await] (the health query goes out), and after it
    (the store entry is written and the watch created). A callback that
    throws rejects its own promise only. *)
Definition query_service (service : string) : M (Reply (list Js.Val)) :=
  settled (call (health_service service) (λ _, HealthServiceQuery service)).

Definition store_and_watch (service : string) (answer : Reply (list Js.Val))
    : M (Reply unit) :=
  settled (nodes ← of_reply answer;
           setServices service (consulServiceToServiceInstance nodes);;
           watch service).

(** [buildServiceStore]. Each callback runs up to its [await] when
    [services.map] calls it, so the health queries all go out first, in
    the order of [services]; the parts after the [await] then run one by
    one, here in that same order, which is one of the orders the answers
    can arrive in ([buildServiceStore_arriving] has them all). One
    rebuild is run through; a second catalog event in the middle of it
    is not. *)
Definition buildServiceStore (services : list string) : M unit :=
  ws ← gets watchers;
  forEach (λ entry, Watch_end entry.2) (entries ws);;
  modify (set_watchers new_Map);;
  answers ← mapM query_service services;
  outcomes ← mapM (λ '(service, answer), store_and_watch service answer)
                  (zip services answers);
  Promise_all outcomes.

(** The listener [watchAll] registers for ['change'] on the catalog
    handle. *)
Definition on_catalog_change (data : Js.Obj) : M unit :=
  let svcs := filter (λ value, value ≠ "consul") (Js.keys data) in
  buildServiceStore svcs.

(** A handle emitting ['change']: the listener registered on it runs.
    The registry attaches its listeners with [on] and never detaches
    one, and the listeners test nothing, so they run for whatever the
    handle emits; whether a handle still emits after [end()] is up to
    the consul package and is not decided here. *)
Definition change_catalog (h : nat) (data : Js.Obj) : M unit :=
  hs ← gets handles;
  match method <$> hs !! h with
  | Some CatalogServiceList => on_catalog_change data
  | _ => ret tt
  end.

Definition change_service (h : nat) (nodes : list Js.Val) : M unit :=
  hs ← gets handles;
  match method <$> hs !! h with
  | Some (HealthService serviceName) => on_service_change serviceName nodes
  | _ => ret tt
  end.

Definition onModuleInit : M unit :=
  try_catch (init;; register) (λ e, logger ERROR (Thrown e)).

Definition onModuleDestroy : M unit := deregister.

(** *** Observations on a world *)

(** The handles still running that watch the instances of [name]. *)
Definition active_watches (name : string) (w : World) : list nat :=
  (filter (λ hw, watches_service name hw.2 = true)
          (imap (λ h wt, (h, wt)) (handles w))).*1.

(** The world after a backend call that moved the backend to [b'] and
    after the events [evs] were recorded. *)
Definition after_call (b' : B) (evs : list Event) (w : World) : World :=
  set_trace (trace w ++ evs)%list
    (set_client {| consul := Some b'; aclToken := aclToken (client w) |} w).

(** Every property of the watcher object names a running handle that
    polls the instances of the property's name. *)
Definition props_running (w : World) : Prop :=
  ∀ name h, props (watchers w) !! name = Some h →
    ∃ wt, handles w !! h = Some wt ∧ watches_service name wt = true.

(** The two errors [init] raises for missing option groups. *)
Definition configuration_error (e : Js.Error) : Prop :=
  e = Js.Err "HeartbeatOptions is required"
  ∨ e = Js.Err "ConsulDiscoveryOptions is required.".

(** The backend rejects its next [n] register calls with [e]. *)
Fixpoint rejects (n : nat) (e : Js.Error) (b : B) : Prop :=
  match n with
  | 0 => True
  | S n' => ∀ svc, ∃ b', agent_service_register svc b = (inl e, b') ∧ rejects n' e b'
  end.

(** The backend rejects its next [n] register calls and accepts the one
    after them. *)
Fixpoint fails_then_accepts (n : nat) (b : B) : Prop :=
  match n with
  | 0 => ∀ svc, ∃ b', agent_service_register svc b = (inr tt, b')
  | S n' =>
    ∀ svc, ∃ e b', agent_service_register svc b = (inl e, b') ∧ fails_then_accepts n' b'
  end.

(** The backend answers every health query for the names of [services]. *)
Definition answers_health (services : list string) : Prop :=
  ∀ name (b : B), name ∈ services →
    ∃ nodes b', health_service name b = (inr nodes, b').

(** The maintenance marker of instance [id] is among [checks]. *)
Definition has_marker (id : string) (checks : list Check) : Prop :=
  ∃ check, check ∈ checks ∧ ServiceID check = id ∧ Name check = MAINTENANCE.

(** After a maintenance call for [id], the backend lists the maintenance
    marker of [id] among the health checks of [sid] exactly when
    maintenance was switched on. *)
Definition records_maintenance (id sid : string) : Prop :=
  ∀ (enable : bool) (b : B),
    ∃ b', agent_service_maintenance id enable b = (inr tt, b')
      ∧ ∃ checks b'', health_checks sid b' = (inr checks, b'')
          ∧ (has_marker id checks ↔ enable = true).

(** The backend rejects its next register calls, one after the other,
    with the errors of [es]. *)
Fixpoint rejects_with (es : list Js.Error) (b : B) : Prop :=
  match es with
  | [] => True
  | e :: es' =>
    ∀ svc, ∃ b', agent_service_register svc b = (inl e, b') ∧ rejects_with es' b'
  end.

(** The store of [w'] has an entry wherever the store of [w] has one,
    and the very entry of [w] under every name outside [names]. *)
Definition store_kept (names : list string) (w w' : World) : Prop :=
  ∀ name,
    (is_Some (serviceStore w !! name) → is_Some (serviceStore w' !! name))
    ∧ (name ∉ names → serviceStore w' !! name = serviceStore w !! name).

(** The health query for [bad] was rejected with [e], every other one
    was answered. *)
Definition answered_except (bad : string) (e : Js.Error) (name : string)
    (answer : Reply (list Js.Val)) : Prop :=
  if decide (name = bad) then answer = inl e else ∃ nodes, answer = inr nodes.

(** *** The rebuild, with the order of events left to the environment

    [buildServiceStore] above resumes the callbacks in the order of
    [services], and [on_catalog_change] enumerates the keys as [Js.keys]
    does. The code fixes neither: the callbacks resume as the answers
    of the backend arrive, and the keys come in the order the engine
    enumerates the properties of the event's data. The definitions
    below take both from outside. *)

(** What the backend answers to the health queries of one rebuild, which
    go out in the order of [services]. *)
Fixpoint health_answers (services : list string) (b : B)
    : list (Reply (list Js.Val)) * B :=
  match services with
  | [] => ([], b)
  | service :: rest =>
    let '(r, b1) := health_service service b in
    let '(rs, b2) := health_answers rest b1 in
    (r :: rs, b2)
  end.

(** [buildServiceStore], the callbacks resuming in the order [arrival]
    puts them in. [Promise.all] rejects with the rejection that comes
    first in that order. *)
Definition buildServiceStore_arriving (arrival : list Waiting → list Waiting)
    (services : list string) : M unit :=
  ws ← gets watchers;
  forEach (λ entry, Watch_end entry.2) (entries ws);;
  modify (set_watchers new_Map);;
  answers ← mapM query_service services;
  outcomes ← mapM (λ '(service, answer), store_and_watch service answer)
                  (arrival (zip services answers));
  Promise_all outcomes.

(** The listener of the catalog watch, [listed] being
    [Object.keys(data)] in the order the engine gives them. *)
Definition on_catalog_change_listed (arrival : list Waiting → list Waiting)
    (listed : list string) : M unit :=
  buildServiceStore_arriving arrival (filter (λ value, value ≠ "consul") listed).

(** The health query of a waiting callback was answered. *)
Definition answered (p : Waiting) : bool :=
  match p.2 with
  | inr _ => true
  | inl _ => false
  end.

(** What the promise of a callback comes to, for a name the watcher
    object has no property of: the rejection of its query, the
    [TypeError] of [watch] on a name every Map object inherits, or
    nothing. *)
Definition callback_outcome (p : Waiting) : Reply unit :=
  match p.2 with
  | inl e => inl e
  | inr _ =>
    if String.eqb p.1 "size" then
      inl (Js.TypeError "Cannot set property size of #<Map> which has only a getter")
    else if inherited p.1 then
      inl (Js.TypeError "this.watchers[serviceName].end is not a function")
    else inr tt
  end.

(** The callback gets as far as [consul.watch]. *)
Definition creates_watch (p : Waiting) : bool :=
  answered p && (String.eqb p.1 "size" || negb (inherited p.1)).

End Registry.

(** *** Observations on the record of calls *)

Definition is_register_call (ev : Event) : bool :=
  match ev with
  | AgentRegister _ _ => true
  | _ => false
  end.

Fixpoint count (f : Event → bool) (evs : list Event) : nat :=
  match evs with
  | [] => 0
  | ev :: rest => (if f ev then 1 else 0) + count f rest
  end.

(** How many times the backend's register was called. *)
Definition register_attempts (evs : list Event) : nat := count is_register_call evs.

Definition is_enrollment (id : string) (ev : Event) : bool :=
  match ev with
  | SchedulerAdd i => String.eqb i id
  | _ => false
  end.

(** How many times [id] was added to the scheduler. *)
Definition enrollments (id : string) (evs : list Event) : nat :=
  count (is_enrollment id) evs.

(** The service names per-service watches were created for, in order. *)
Definition created_for (evs : list Event) : list string :=
  omap (λ ev, match ev with
              | WatchCreated _ (HealthService name) => Some name
              | _ => None
              end) evs.

(** The service names whose store entry was written, in order. *)
Definition stored_for (evs : list Event) : list string :=
  omap (λ ev, match ev with
              | SetServices name => Some name
              | _ => None
              end) evs.

Definition is_deregister_call (ev : Event) : bool :=
  match ev with
  | AgentDeregister _ _ => true
  | _ => false
  end.

(** How many times the backend's deregister was called. *)
Definition deregistrations (evs : list Event) : nat := count is_deregister_call evs.

(** The handles [end()] was called on, in order. *)
Definition ended_handles (evs : list Event) : list nat :=
  omap (λ ev, match ev with
              | WatchEnded h => Some h
              | _ => None
              end) evs.

(** The [ttl] the registered service's check carries, as
    [_internalRegister] reads it back from the generated service. *)
Definition registration_ttl (reg : Registration) : Js.Val :=
  Js.get (omit_undefined (Js.get (getService reg) "check")) "ttl".

(** The guard of [_internalRegister] on the scheduler enrollment. *)
Definition enrolls (hb : HeartbeatOptions) (sched : option TtlScheduler)
    (reg : Registration) : bool :=
  enabled hb
  && match sched with Some _ => true | None => false end
  && negb (Js.is_nullish (registration_ttl reg)).

(** The events of an attempt up to and including the backend call, and
    those of an accepted attempt. *)
Definition attempt_events (reg : Registration) (svc : Js.Obj) (r : Reply unit)
    : list Event :=
  [Logged LOG (Text ("registering service with id: " +:+ getInstanceId reg));
   AgentRegister svc r].

Definition accepted_events (reg : Registration) (svc : Js.Obj) (enrolled : bool)
    : list Event :=
  (attempt_events reg svc (inr tt)
     ++ (if enrolled then [SchedulerAdd (getInstanceId reg)] else [])
     ++ [Logged LOG (Text "service registered")])%list.

(** A scan of the record: every scheduler enrollment comes after a
    register call the backend accepted ([confirmed] says whether one was
    seen already). *)
Fixpoint enrollment_guarded (confirmed : bool) (evs : list Event) : bool :=
  match evs with
  | [] => true
  | AgentRegister _ (inr _) :: rest => enrollment_guarded true rest
  | SchedulerAdd _ :: rest => confirmed && enrollment_guarded confirmed rest
  | _ :: rest => enrollment_guarded confirmed rest
  end.

(** The events of [deregister] on an initialised, connected registry
    whose deregister call was answered with [r]. *)
Definition deregister_events (reg : Registration) (sched : option TtlScheduler)
    (opts : Js.Obj) (r : Reply unit) : list Event :=
  (Logged LOG (Text ("Deregistering service with consul: " +:+ getInstanceId reg))
     :: match sched with
        | Some _ => [SchedulerRemove (getInstanceId reg)]
        | None => []
        end
     ++ [AgentDeregister opts r;
         match r with
         | inr _ =>
           Logged LOG (Text ("Deregistered service with consul: " +:+ getInstanceId reg))
         | inl e => Logged ERROR (Thrown e)
         end])%list.

(** The status that switches maintenance on, and the one that switches
    it off. *)
Definition status_name (enable : bool) : string :=
  if enable then "OUT_OF_SERVICE" else "UP".

(** A service name bracket access on a fresh Map resolves to nothing. *)
Definition ordinary (name : string) : Prop := member new_Map name = Absent.

(** The attempts [retry.operation()] allows: the first one and one per
    delay. *)
Definition max_attempts : nat := S (length retry_timeouts).

End Registry.

(** ** A test double for the backend *)

Module Double.

Import Registry.

(** A scripted Consul agent: [register_plan k] is what the [k]-th
    register call answers ([None]: accepted), [deregister_answer] what
    deregister answers, [maintenance] the instance ids put in
    maintenance mode, [other_checks] the health checks of other kinds,
    and [nodes] the instances reported per service name. *)
Record Backend := mkBackend {
  register_plan : nat → option Js.Error;
  register_calls : nat;
  deregister_answer : option Js.Error;
  maintenance : list string;
  other_checks : list Check;
  nodes : gmap string (list Js.Val);
}.

Definition answer (o : option Js.Error) : Reply unit :=
  match o with
  | Some e => inl e
  | None => inr tt
  end.

Definition marker (sid id : string) : Check :=
  {| CheckID := "_service_maintenance:" +:+ id;
     Name := MAINTENANCE;
     ServiceID := id;
     ServiceName := sid;
     Status := "critical" |}.

#[export] Instance double_api : ConsulApi Backend := {|
  agent_service_register _ b :=
    (answer (register_plan b (register_calls b)),
     mkBackend (register_plan b) (S (register_calls b)) (deregister_answer b)
               (maintenance b) (other_checks b) (nodes b));
  agent_service_deregister _ b := (answer (deregister_answer b), b);
  agent_service_maintenance id enable b :=
    (inr tt,
     mkBackend (register_plan b) (register_calls b) (deregister_answer b)
               (if enable then id :: filter (λ i, i ≠ id) (maintenance b)
                else filter (λ i, i ≠ id) (maintenance b))
               (other_checks b) (nodes b));
  health_checks sid b :=
    (inr (filter (λ c, Name c ≠ MAINTENANCE) (other_checks b)
            ++ map (marker sid) (maintenance b))%list, b);
  health_service name b := (inr (default [] (nodes b !! name)), b);
|}.

Definition refused : Js.Error := Js.Err "connect ECONNREFUSED 127.0.0.1:8500".

(** Register plans. *)
Definition always_fails : nat → option Js.Error := λ _, Some refused.

Definition fails_first (n : nat) : nat → option Js.Error :=
  λ k, if (k <? n)%nat then Some refused else None.

Definition backend (plan : nat → option Js.Error) : Backend :=
  mkBackend plan 0 None [] [] ∅.

(** A registration builder in the manner of [ConsulRegistrationBuilder]:
    the service name and the port are required, a TTL check is attached
    when heartbeating is enabled. *)
Definition build (i : BuilderInput) : Reply Registration :=
  match b_serviceName i, b_instanceId i with
  | Js.Str name, Js.Str id =>
    if Js.is_nullish (b_port i) then inl (Js.Err "port is required")
    else
      inr {| getInstanceId := id;
             getServiceId := name;
             getService :=
               {[ "name" := Js.Str name;
                  "id" := Js.Str id;
                  "port" := b_port i;
                  "check" :=
                    Js.Object
                      (if enabled (b_heartbeatOptions i)
                       then {[ "ttl" := Js.Str "30s" ]}
                       else {[ "http" := Js.Str "http://127.0.0.1:3000/health";
                               "interval" := Js.Str "10s" ]}) ]} |}
  | _, _ => inl (Js.Err "serviceName is required")
  end.

Definition orders : Js.Obj :=
  {[ "name" := Js.Str "orders"; "id" := Js.Str "orders-1"; "port" := Js.Num 3000 ]}.

Definition config (failFast : option bool) (heartbeat_enabled : bool) : RegistryOptions :=
  {| service := Some orders;
     discovery :=
       Some (match failFast with
             | Some f => {[ "failFast" := Js.Bool f ]}
             | None => ∅
             end);
     heartbeat := Some {| enabled := heartbeat_enabled; ttlInSeconds := Some 30%Z |} |}.

(** A registry as the injector constructs it. *)
Definition fresh (o : RegistryOptions) (b : Backend) : World (ServiceInstance := Js.Val) :=
  {| options := o;
     registration := None;
     ttlScheduler := None;
     watcher := None;
     watchers := new_Map;
     client := {| consul := Some b; aclToken := None |};
     handles := [];
     serviceStore := ∅;
     trace := [] |}.

Definition convert (l : list Js.Val) : list Js.Val := l.

(** The registry after a successful [init]. *)
Definition started (o : RegistryOptions) (b : Backend) : World (ServiceInstance := Js.Val) :=
  (init build (fresh o b)).2.

(** Options without the two mandatory groups. *)
Definition bare_config : RegistryOptions :=
  {| service := Some orders; discovery := None; heartbeat := None |}.

(** What the catalog watch reports: two services and the agent itself. *)
Definition catalog : Js.Obj :=
  {[ "orders" := Js.Arr []; "consul" := Js.Arr []; "billing" := Js.Arr [] ]}.

(** A caller's configuration for the wiring utility. *)
Definition wiring (d : string) : ProviderUtil.RegistryConfiguration :=
  {| ProviderUtil.discoverer := d;
     ProviderUtil.cfg_service := Some orders;
     ProviderUtil.cfg_discovery := Some {[ "scheme" := Js.Str "http" ]};
     ProviderUtil.cfg_heartbeat := Some {| enabled := true; ttlInSeconds := Some 30%Z |} |}.

(** The catalog watch fires, with the catalog above, on a registry that
    started and registered with heartbeating: once, and once more. *)
Definition after_first_change : World (ServiceInstance := Js.Val) :=
  (change_catalog convert 0 catalog
     (onModuleInit build
        (fresh (config (Some false) true) (backend (fails_first 0)))).2).2.

Definition after_second_change : World (ServiceInstance := Js.Val) :=
  (change_catalog convert 0 catalog after_first_change).2.

(** A plan that refuses ten calls and lets the eleventh time out. *)
Definition timed_out : Js.Error := Js.Err "request timed out".

Definition refuses_then_times_out : nat → option Js.Error :=
  λ k, if (k <? 10)%nat then Some refused else Some timed_out.

(** A registry whose client holds no consul instance. *)
Definition disconnected (o : RegistryOptions) : World (ServiceInstance := Js.Val) :=
  {| options := o;
     registration := None;
     ttlScheduler := None;
     watcher := None;
     watchers := new_Map;
     client := {| consul := @None Backend; aclToken := None |};
     handles := [];
     serviceStore := ∅;
     trace := [] |}.

(** The started registry of a client configured with an ACL token. *)
Definition started_with_token (t : string) (o : RegistryOptions) (b : Backend)
    : World (ServiceInstance := Js.Val) :=
  (init build
     {| options := o;
        registration := None;
        ttlScheduler := None;
        watcher := None;
        watchers := new_Map;
        client := {| consul := Some b; aclToken := Some t |};
        handles := [];
        serviceStore := ∅;
        trace := [] |}).2.

(** Service options that name no port: the builder refuses them. *)
Definition portless_config : RegistryOptions :=
  {| service := Some {[ "name" := Js.Str "orders"; "id" := Js.Str "orders-1" ]};
     discovery := Some ∅;
     heartbeat := Some {| enabled := true; ttlInSeconds := Some 30%Z |} |}.

(** An agent whose health endpoint is down for the names of [down] and
    which otherwise answers as [agent] does. *)
Definition down : list string := ["billing"].

Record Flaky := mkFlaky {
  agent : Backend;
}.

Definition unavailable : Js.Error := Js.Err "503 Service Unavailable".

Definition through {A} (r : Reply A * Backend) : Reply A * Flaky :=
  (r.1, mkFlaky r.2).

#[export] Instance flaky_api : ConsulApi Flaky := {|
  agent_service_register svc f := through (agent_service_register svc (agent f));
  agent_service_deregister opts f := through (agent_service_deregister opts (agent f));
  agent_service_maintenance id enable f :=
    through (agent_service_maintenance id enable (agent f));
  health_checks sid f := through (health_checks sid (agent f));
  health_service name f :=
    if bool_decide (name ∈ down) then (inl unavailable, f)
    else through (health_service name (agent f));
|}.

(** A registry connected to an agent that cannot answer for billing. *)
Definition billing_down : World (B := Flaky) (ServiceInstance := Js.Val) :=
  {| options := config (Some false) true;
     registration := None;
     ttlScheduler := None;
     watcher := None;
     watchers := new_Map;
     client := {| consul := Some (mkFlaky (backend (fails_first 0)));
                  aclToken := None |};
     handles := [];
     serviceStore := ∅;
     trace := [] |}.

(** An agent that reports the TTL check of orders-1 as critical, and no
    maintenance. *)
Definition expired_ttl : Check :=
  {| CheckID := "service:orders-1";
     Name := "Service 'orders' check";
     ServiceID := "orders-1";
     ServiceName := "orders";
     Status := "critical" |}.

Definition unhealthy : Backend := mkBackend (fails_first 0) 0 None [] [expired_ttl] ∅.

(** A caller's configuration that leaves the heartbeat options out, and
    a [validateOptions] that fills them in, in place, and returns the
    object it was given. *)
Definition wiring_without_heartbeat (d : string) : ProviderUtil.RegistryConfiguration :=
  {| ProviderUtil.discoverer := d;
     ProviderUtil.cfg_service := Some orders;
     ProviderUtil.cfg_discovery := Some {[ "scheme" := Js.Str "http" ]};
     ProviderUtil.cfg_heartbeat := None |}.

Definition default_heartbeat : HeartbeatOptions :=
  {| enabled := true; ttlInSeconds := Some 30%Z |}.

Definition fills_heartbeat_in (o : ProviderUtil.RegistryConfiguration)
    : Js.Error + ProviderUtil.Validation :=
  let filled :=
    {| ProviderUtil.discoverer := ProviderUtil.discoverer o;
       ProviderUtil.cfg_service := ProviderUtil.cfg_service o;
       ProviderUtil.cfg_discovery := ProviderUtil.cfg_discovery o;
       ProviderUtil.cfg_heartbeat :=
         Some (default default_heartbeat (ProviderUtil.cfg_heartbeat o)) |} in
  inr {| ProviderUtil.returned := filled; ProviderUtil.options_afterwards := filled |}.

(** An agent that reports one instance for each of three services. *)
Definition instance (id : string) : Js.Val :=
  Js.Object {[ "Service" := Js.Object {[ "ID" := Js.Str id ]} ]}.

Definition populated : Backend :=
  mkBackend (fails_first 0) 0 None [] []
    {[ "orders" := [instance "orders-1"];
       "billing" := [instance "billing-1"];
       "shipping" := [instance "shipping-1"] ]}.

(** The registry of that agent once the catalog above was seen. *)
Definition billing_listed : World (ServiceInstance := Js.Val) :=
  (change_catalog convert 0 catalog
     (onModuleInit build (fresh (config (Some false) true) populated)).2).2.

(** The catalog once billing has gone and shipping has come. *)
Definition catalog_without_billing : Js.Obj :=
  {[ "orders" := Js.Arr []; "consul" := Js.Arr []; "shipping" := Js.Arr [] ]}.

(** A catalog that lists a service called constructor. *)
Definition catalog_with_constructor : Js.Obj :=
  {[ "orders" := Js.Arr []; "constructor" := Js.Arr [] ]}.

End Double.

(** * Properties *)

(** ** Object spread *)

Module JsFacts.

Lemma spread_lookup_keep (a b : Js.Obj) (k : string) :
  b !! k = None → Js.spread a b !! k = a !! k.
Proof.
  intros Hb. unfold Js.spread. rewrite lookup_union, Hb.
  by destruct (a !! k).
Qed.

Lemma spread_lookup_override (a b : Js.Obj) (k : string) (v : Js.Val) :
  b !! k = Some v → Js.spread a b !! k = Some v.
Proof.
  intros Hb. unfold Js.spread. rewrite lookup_union, Hb.
  by destruct (a !! k).
Qed.

Lemma elem_of_keys (o : Js.Obj) (k : string) : k ∈ Js.keys o ↔ is_Some (o !! k).
Proof.
  unfold Js.keys. rewrite list_elem_of_fmap. split.
  - intros ([k' v] & -> & Hin). apply elem_of_map_to_list in Hin. by exists v.
  - intros [v Hv]. exists (k, v). split; [done |]. by apply elem_of_map_to_list.
Qed.

End JsFacts.

(** ** The wiring utility *)

Module ProviderUtilFacts.

Import ProviderUtil.

Section Wiring.

Variable validateOptions : RegistryConfiguration → Js.Error + RegistryConfiguration.
Variable installed : string → bool.

Lemma injected_options_wired (ps : list Provider) (o : RegistryOptions) :
  Forall (λ p, ∃ name, p = Class name) ps →
  injected_options (ps ++ [Value SERVICE_REGISTRY_CONFIG (Options o); Class "ServiceStore"])
  = Some o.
Proof.
  induction 1 as [|p ps [name ->] _ IH]; [reflexivity | exact IH].
Qed.

(** What the three backend branches and the local branch write. *)
Lemma wired_backend (options registryOption : RegistryConfiguration) :
  validateOptions options = inr registryOption →
  discoverer registryOption ∈ ["consul"; "etcd"; "zookeeper"] →
  installed (package_of (discoverer registryOption)) = true →
  ∃ ps, getSharedProviderUtils validateOptions installed options = Wired ps
    ∧ injected_options ps
      = Some {| service := cfg_service options;
                discovery :=
                  Some (Js.spread {[ "failFast" := Js.Bool true ]}
                                  (Js.spread_opt (cfg_discovery options)));
                heartbeat := cfg_heartbeat options |}.
Proof.
  intros Hv Hd Hi. unfold getSharedProviderUtils. rewrite Hv.
  rewrite !elem_of_cons, elem_of_nil in Hd.
  destruct Hd as [Hd | [Hd | [Hd | []]]]; rewrite Hd in *; simpl;
    unfold backend_branch; cbv in Hi; rewrite Hi;
    eexists; (split; [reflexivity |]);
    apply (injected_options_wired [_; _]); repeat constructor; eauto.
Qed.

Lemma wired_local (options registryOption : RegistryConfiguration) :
  validateOptions options = inr registryOption →
  discoverer registryOption = "local" →
  ∃ ps, getSharedProviderUtils validateOptions installed options = Wired ps
    ∧ injected_options ps
      = Some {| service := cfg_service options;
                discovery := cfg_discovery options;
                heartbeat := cfg_heartbeat options |}.
Proof.
  intros Hv Hd. unfold getSharedProviderUtils. rewrite Hv, Hd. simpl.
  eexists. split; [reflexivity |].
  apply (injected_options_wired [_]); repeat constructor; eauto.
Qed.

(** C10. For the discoverers consul, etcd and zookeeper the options
    injected under SERVICE_REGISTRY_CONFIG carry discovery.failFast = true
    when the caller's discovery options do not set failFast, the caller's
    value when they do, and every other discovery property as the caller
    gave it; for the discoverer local the discovery options are injected
    unchanged, with no failFast added. The discoverer is read from what
    validateOptions returns, and the backend's package must load. *)
Theorem failFast_defaults_to_true (options registryOption : RegistryConfiguration) :
  validateOptions options = inr registryOption →
  (discoverer registryOption ∈ ["consul"; "etcd"; "zookeeper"] →
   installed (package_of (discoverer registryOption)) = true →
   ∃ ps o d,
     getSharedProviderUtils validateOptions installed options = Wired ps
     ∧ injected_options ps = Some o
     ∧ discovery o = Some d
     ∧ (∀ caller, cfg_discovery options = Some caller →
          caller !! "failFast" = None → d !! "failFast" = Some (Js.Bool true))
     ∧ (cfg_discovery options = None → d !! "failFast" = Some (Js.Bool true))
     ∧ (∀ caller v, cfg_discovery options = Some caller →
          caller !! "failFast" = Some v → d !! "failFast" = Some v)
     ∧ (∀ k, k ≠ "failFast" → d !! k = cfg_discovery options ≫= (.!! k)))
  ∧ (discoverer registryOption = "local" →
     ∃ ps o,
       getSharedProviderUtils validateOptions installed options = Wired ps
       ∧ injected_options ps = Some o
       ∧ discovery o = cfg_discovery options).
Proof.
  intros Hv. split.
  - intros Hd Hi.
    destruct (wired_backend options registryOption Hv Hd Hi) as (ps & Hw & Ho).
    eexists ps, _, _.
    split; [exact Hw |]. split; [exact Ho |]. split; [reflexivity |].
    split; [| split; [| split]].
    + intros caller Hc Hnone. rewrite Hc. simpl.
      rewrite JsFacts.spread_lookup_keep by exact Hnone.
      apply lookup_singleton_eq.
    + intros Hc. rewrite Hc. simpl.
      rewrite JsFacts.spread_lookup_keep by apply lookup_empty.
      apply lookup_singleton_eq.
    + intros caller v Hc Hsome. rewrite Hc. simpl.
      by apply JsFacts.spread_lookup_override.
    + intros k Hk.
      destruct (cfg_discovery options) as [caller|]; simpl.
      * destruct (caller !! k) as [v|] eqn:Hl.
        -- by apply JsFacts.spread_lookup_override.
        -- rewrite JsFacts.spread_lookup_keep by exact Hl.
           by apply lookup_singleton_ne.
      * rewrite JsFacts.spread_lookup_keep by apply lookup_empty.
        by apply lookup_singleton_ne.
  - intros Hd.
    destruct (wired_local options registryOption Hv Hd) as (ps & Hw & Ho).
    eexists ps, _. split; [exact Hw |]. split; [exact Ho | reflexivity].
Qed.

(** *** Beyond the default of failFast *)

Lemma not_listed_eqb (d : string) (known : list string) (k : string) :
  d ∉ known → k ∈ known → String.eqb d k = false.
Proof.
  intros Hd Hk. apply String.eqb_neq. intros ->. by apply Hd.
Qed.

(** X1. A discoverer that is none of consul, etcd, zookeeper and local
    wires no registry at all: the provider list is the configuration
    provider, still holding the empty object it was created with, and
    the ServiceStore, whatever packages are installed. *)
Theorem unknown_discoverer_wires_no_registry
    (options registryOption : RegistryConfiguration) :
  validateOptions options = inr registryOption →
  discoverer registryOption ∉ ["consul"; "etcd"; "zookeeper"; "local"] →
  getSharedProviderUtils validateOptions installed options
  = Wired [Value SERVICE_REGISTRY_CONFIG EmptyObject; Class "ServiceStore"].
Proof.
  intros Hv Hd. unfold getSharedProviderUtils. rewrite Hv.
  rewrite !(not_listed_eqb _ _ _ Hd); [reflexivity | | | |];
    rewrite !elem_of_cons; tauto.
Qed.

(** X2. For the discoverers consul, etcd and zookeeper a backend package
    that cannot be required ends the process with exit code 1 and no
    provider list is returned; the discoverer local is wired whether or
    not any package is installed. *)
Theorem missing_backend_package_exits
    (options registryOption : RegistryConfiguration) :
  validateOptions options = inr registryOption →
  (discoverer registryOption ∈ ["consul"; "etcd"; "zookeeper"] →
   installed (package_of (discoverer registryOption)) = false →
   getSharedProviderUtils validateOptions installed options = Exited 1)
  ∧ (discoverer registryOption = "local" →
     ∃ ps, getSharedProviderUtils validateOptions installed options = Wired ps).
Proof.
  intros Hv. split.
  - intros Hd Hi. unfold getSharedProviderUtils. rewrite Hv.
    rewrite !elem_of_cons, elem_of_nil in Hd.
    destruct Hd as [Hd | [Hd | [Hd | []]]]; rewrite Hd in *; simpl;
      unfold backend_branch; cbv in Hi; by rewrite Hi.
  - intros Hd. destruct (wired_local options registryOption Hv Hd) as (ps & Hw & _).
    by exists ps.
Qed.

(** The body after the call to validateOptions, on the options record
    it reads: whenever a registry is wired, the service and heartbeat
    options of that record are the ones injected, the provider list ends
    with the configuration provider followed by the ServiceStore, and
    everything before them is a class. *)
Lemma body_passes_service_and_heartbeat
    (options registryOption : RegistryConfiguration) :
  validateOptions options = inr registryOption →
  discoverer registryOption ∈ ["consul"; "etcd"; "zookeeper"; "local"] →
  (discoverer registryOption ≠ "local" →
   installed (package_of (discoverer registryOption)) = true) →
  ∃ classes o,
    getSharedProviderUtils validateOptions installed options
    = Wired ((Class <$> classes)
               ++ [Value SERVICE_REGISTRY_CONFIG (Options o); Class "ServiceStore"])%list
    ∧ classes ≠ []
    ∧ service o = cfg_service options
    ∧ heartbeat o = cfg_heartbeat options.
Proof.
  intros Hv Hd Hi. unfold getSharedProviderUtils. rewrite Hv.
  rewrite !elem_of_cons, elem_of_nil in Hd.
  destruct Hd as [Hd | [Hd | [Hd | [Hd | []]]]]; rewrite Hd in *; simpl.
  1-3: unfold backend_branch;
       match type of Hi with
       | _ → ?P => assert (Hin : P) by (apply Hi; discriminate)
       end;
       cbv in Hin; rewrite Hin;
       by eexists [_; _], _.
  by eexists [_], _.
Qed.

End Wiring.

(** X3. What is injected as service and heartbeat options is what the
    caller's options object holds once validateOptions has returned, not
    what the caller passed: the utility hands the object itself to
    validateOptions and reads it afterwards. Whenever a registry is
    wired, for any of the four discoverers, the injected service and
    heartbeat options are those of the object as validateOptions left
    it (a default written into it included), the provider list ends
    with the configuration provider followed by the ServiceStore, and
    everything before them is a class. *)
Theorem wiring_injects_the_validated_object
    (validateOptions : RegistryConfiguration → Js.Error + Validation)
    (installed : string → bool) (options : RegistryConfiguration) (v : Validation) :
  validateOptions options = inr v →
  discoverer (returned v) ∈ ["consul"; "etcd"; "zookeeper"; "local"] →
  (discoverer (returned v) ≠ "local" →
   installed (package_of (discoverer (returned v))) = true) →
  ∃ classes o,
    getSharedProviderUtils_by_reference validateOptions installed options
    = Wired ((Class <$> classes)
               ++ [Value SERVICE_REGISTRY_CONFIG (Options o); Class "ServiceStore"])%list
    ∧ classes ≠ []
    ∧ service o = cfg_service (options_afterwards v)
    ∧ heartbeat o = cfg_heartbeat (options_afterwards v).
Proof.
  intros Hv Hd Hi. unfold getSharedProviderUtils_by_reference. rewrite Hv.
  by apply (body_passes_service_and_heartbeat (λ _, inr (returned v)) installed
              (options_afterwards v) (returned v)).
Qed.

End ProviderUtilFacts.

(** ** The registry *)

Module RegistryFacts.

Import Registry.

Ltac run :=
  unfold mbind, M_bind, mret, M_ret, bind, ret, throw, try_catch, settled,
    gets, modify, emit, logger, of_reply,
    set_registration, set_ttlScheduler, set_watcher, set_watchers, set_client,
    set_handles, set_serviceStore, set_trace; simpl.

Section Registry.

Context {B : Type} `{!ConsulApi B} {ServiceInstance : Type}.
Variable consulServiceToServiceInstance : list Js.Val → list ServiceInstance.
Variable build : BuilderInput → Reply Registration.

Implicit Types w : World (B := B) (ServiceInstance := ServiceInstance).

(** *** Backend calls *)

Lemma call_run {A} (f : B → Reply A * B) (ev : Reply A → Event) w b r b' :
  consul (client w) = Some b →
  f b = (r, b') →
  call f ev w
  = (match r with inl e => Throw e | inr a => Return a end, after_call b' [ev r] w).
Proof.
  intros Hc Hf. unfold call. run. rewrite Hc, Hf. run.
  by destruct r.
Qed.

(** *** The generated service *)

Lemma token_object_only_token (c : ConsulClient B) (k : string) :
  k ≠ "token" → token_object c !! k = None.
Proof.
  intros Hk. unfold token_object.
  destruct (aclToken c) as [t|]; [| apply lookup_empty].
  destruct (Js.truthy (Js.Str t)); [| apply lookup_empty].
  by apply lookup_singleton_ne.
Qed.

Lemma check_ttl_service_object (reg : Registration) (so : Js.Obj) (c : ConsulClient B) :
  check_ttl (service_object reg so (token_object c)) = registration_ttl reg.
Proof.
  unfold check_ttl, service_object, registration_ttl, Js.get at 1.
  rewrite JsFacts.spread_lookup_keep by (by apply token_object_only_token).
  rewrite (JsFacts.spread_lookup_override _ _ _ _ (lookup_singleton_eq _ _)).
  reflexivity.
Qed.

(** *** One register attempt *)

Lemma internalRegister_rejected w reg so b e b' :
  registration w = Some reg →
  service (options w) = Some so →
  consul (client w) = Some b →
  agent_service_register (service_object reg so (token_object (client w))) b
  = (inl e, b') →
  _internalRegister w
  = (Throw e,
     after_call b'
       (attempt_events reg (service_object reg so (token_object (client w))) (inl e)) w).
Proof.
  intros Hr Hs Hc Hb.
  unfold _internalRegister, generateService, getToken, the_registration. run.
  repeat (first [rewrite Hr | rewrite Hs]; run).
  unfold call. run. rewrite Hc, Hb. run.
  unfold after_call, attempt_events. run.
  by rewrite Hr, <- app_assoc.
Qed.

Lemma internalRegister_accepted w reg so hb b b' :
  registration w = Some reg →
  service (options w) = Some so →
  heartbeat (options w) = Some hb →
  consul (client w) = Some b →
  agent_service_register (service_object reg so (token_object (client w))) b
  = (inr tt, b') →
  let enrolled := enrolls hb (ttlScheduler w) reg in
  _internalRegister w
  = (Return tt,
     set_ttlScheduler
       (if enrolled then TtlScheduler_add (getInstanceId reg) <$> ttlScheduler w
        else ttlScheduler w)
       (after_call b'
          (accepted_events reg (service_object reg so (token_object (client w)))
             enrolled) w)).
Proof.
  intros Hr Hs Hh Hc Hb.
  unfold _internalRegister, generateService, getToken, the_registration. run.
  repeat (first [rewrite Hr | rewrite Hs]; run).
  unfold call. run. rewrite Hc, Hb. run. rewrite Hh. run.
  rewrite check_ttl_service_object.
  unfold enrolls, after_call, accepted_events, attempt_events, TtlScheduler_call.
  destruct (enabled hb); run;
    [destruct (ttlScheduler w) as [s|] eqn:Hsched; run;
     [destruct (Js.is_nullish (registration_ttl reg)); run |] |];
    rewrite ?Hr, ?Hsched, <- ?app_assoc; reflexivity.
Qed.

Lemma enrollment_guarded_spec (evs : list Event) (confirmed : bool) :
  enrollment_guarded confirmed evs = true →
  ∀ pre id post, evs = (pre ++ SchedulerAdd id :: post)%list →
    confirmed = true ∨ ∃ svc, AgentRegister svc (inr tt) ∈ pre.
Proof.
  revert confirmed. induction evs as [|ev evs IH]; intros confirmed Hg pre id post Heq.
  - by destruct pre.
  - destruct pre as [|ev' pre]; simpl in Heq; injection Heq as -> Heq.
    + simpl in Hg. apply andb_true_iff in Hg as [-> _]. by left.
    + assert (Hrest : ∃ c', enrollment_guarded c' evs = true
                            ∧ (c' = true → confirmed = true
                                 ∨ ∃ svc, ev' = AgentRegister svc (inr tt))).
      { destruct ev' as [| svc [e|[]] | | | | | | | | |]; simpl in Hg;
          try (apply andb_true_iff in Hg as [-> Hg]);
          eexists; (split; [exact Hg |]); eauto. }
      destruct Hrest as (c' & Hg' & Hc').
      destruct (IH c' Hg' pre id post Heq) as [Hc | [svc Hin]].
      * destruct (Hc' Hc) as [? | [svc ->]]; [by left |].
        right. exists svc. apply elem_of_cons. by left.
      * right. exists svc. apply elem_of_cons. by right.
Qed.

Lemma no_enrollment_before_register (evs : list Event) :
  enrollment_guarded false evs = true →
  ∀ pre id post, evs = (pre ++ SchedulerAdd id :: post)%list →
    ∃ svc, AgentRegister svc (inr tt) ∈ pre.
Proof.
  intros Hg pre id post Heq.
  by destruct (enrollment_guarded_spec evs false Hg pre id post Heq).
Qed.

(** Membership in an explicit list of events. *)
Ltac not_listed :=
  let Hin := fresh "Hin" in
  intros Hin;
  repeat (apply elem_of_cons in Hin as [Hin | Hin]; [discriminate Hin |]);
  by apply elem_of_nil in Hin.

Ltac listed_rejection :=
  let Hin := fresh "Hin" in
  intros ? ? Hin;
  repeat (apply elem_of_cons in Hin as [Hin | Hin];
          [first [discriminate Hin
                 | injection Hin as _ <-;
                   split; [reflexivity |];
                   split; [reflexivity |];
                   intros ?; not_listed] |]);
  by apply elem_of_nil in Hin.

Ltac thrown_attempt :=
  split; [by apply no_enrollment_before_register |];
  split; [listed_rejection |];
  intros _; split; [reflexivity | intros ?; not_listed].

(** C6. In one register attempt the scheduler's add is invoked only after
    the backend's register call has answered with success: in the events
    of the attempt every enrollment is preceded by an accepted register
    call; and when the backend's register call is rejected the attempt
    throws that rejection, leaves the scheduler as it was and records no
    enrollment. The same holds of any attempt that does not return. *)
Theorem enrollment_only_after_confirmed_register w :
  ∃ evs,
    trace (_internalRegister w).2 = (trace w ++ evs)%list
    ∧ (∀ pre id post, evs = (pre ++ SchedulerAdd id :: post)%list →
         ∃ svc, AgentRegister svc (inr tt) ∈ pre)
    ∧ (∀ svc e, AgentRegister svc (inl e) ∈ evs →
         (_internalRegister w).1 = Throw e
         ∧ ttlScheduler (_internalRegister w).2 = ttlScheduler w
         ∧ ∀ id, SchedulerAdd id ∉ evs)
    ∧ ((_internalRegister w).1 ≠ Return tt →
         ttlScheduler (_internalRegister w).2 = ttlScheduler w
         ∧ ∀ id, SchedulerAdd id ∉ evs).
Proof.
  destruct (registration w) as [reg|] eqn:Hr.
  2: { exists []. unfold _internalRegister, the_registration. run. rewrite Hr.
       simpl. rewrite app_nil_r. split; [done |]. thrown_attempt. }
  destruct (service (options w)) as [so|] eqn:Hs.
  2: { eexists. unfold _internalRegister, generateService, the_registration. run.
       repeat (first [rewrite Hr | rewrite Hs]; run).
       split; [reflexivity |]. thrown_attempt. }
  destruct (consul (client w)) as [b|] eqn:Hc.
  2: { eexists. unfold _internalRegister, generateService, getToken, the_registration.
       run. repeat (first [rewrite Hr | rewrite Hs]; run).
       unfold call. run. rewrite Hc. simpl.
       split; [reflexivity |]. thrown_attempt. }
  destruct (agent_service_register
              (service_object reg so (token_object (client w))) b)
    as [[e|[]] b'] eqn:Hb.
  { rewrite (internalRegister_rejected w reg so b e b' Hr Hs Hc Hb).
    eexists. split; [reflexivity |]. thrown_attempt. }
  destruct (heartbeat (options w)) as [hb|] eqn:Hh.
  2: { eexists. unfold _internalRegister, generateService, getToken, the_registration.
       run. repeat (first [rewrite Hr | rewrite Hs]; run).
       unfold call. run. rewrite Hc, Hb. run. rewrite Hh. simpl.
       split; [by rewrite <- app_assoc |]. thrown_attempt. }
  rewrite (internalRegister_accepted w reg so hb b b' Hr Hs Hh Hc Hb). simpl.
  eexists. split; [reflexivity |].
  split.
  { apply no_enrollment_before_register. unfold accepted_events.
    by destruct (enrolls hb (ttlScheduler w) reg). }
  split; [| by intros []].
  unfold accepted_events.
  destruct (enrolls hb (ttlScheduler w) reg); listed_rejection.
Qed.

(** *** Initialisation *)

(** C7. When the heartbeat options or the discovery options are absent
    (null or undefined), init throws a configuration error and nothing
    else happens: the world is the one it started from, so no
    registration was built or stored, no scheduler created and no watch
    started, whatever the builder would have answered. *)
Theorem init_requires_option_groups w :
  heartbeat (options w) = None ∨ discovery (options w) = None →
  ∃ e, init build w = (Throw e, w) ∧ configuration_error e.
Proof.
  intros Habsent. unfold init, configuration_error. run.
  destruct (heartbeat (options w)) as [hb|] eqn:Hh.
  - destruct Habsent as [Hh' | Hd]; [discriminate Hh' |].
    rewrite Hd. eauto.
  - eauto.
Qed.

(** A successful [init] on a connected client: the registration is
    stored, the scheduler exists exactly when heartbeating is enabled,
    and the catalog watch is the one handle created. *)
Lemma init_connected w hb d reg b :
  heartbeat (options w) = Some hb →
  discovery (options w) = Some d →
  build (builder_input (options w) d hb) = inr reg →
  consul (client w) = Some b →
  ∃ w', init build w = (Return tt, w')
    ∧ options w' = options w
    ∧ registration w' = Some reg
    ∧ ttlScheduler w'
      = (if enabled hb then Some {| tasks := ∅ |} else ttlScheduler w)
    ∧ client w' = client w
    ∧ trace w' = (trace w ++ [WatchCreated (length (handles w)) CatalogServiceList])%list.
Proof.
  intros Hh Hd Hb Hc. unfold init, watchAll, consul_watch. run.
  rewrite Hh, Hd, Hb. run.
  destruct (enabled hb); run; rewrite Hc; run; eauto 10.
Qed.

(** *** The retry loop of [register] *)

Lemma count_app (f : Event → bool) (evs evs' : list Event) :
  count f (evs ++ evs') = count f evs + count f evs'.
Proof. induction evs as [|ev evs IH]; simpl; [done | rewrite IH; lia]. Qed.

Lemma register_attempts_accepted reg svc enrolled :
  register_attempts (accepted_events reg svc enrolled) = 1.
Proof. by destruct enrolled. Qed.

Lemma enrollments_accepted reg svc enrolled :
  enrollments (getInstanceId reg) (accepted_events reg svc enrolled)
  = if enrolled then 1 else 0.
Proof.
  destruct enrolled; [| reflexivity].
  unfold enrollments, accepted_events. simpl.
  by rewrite String.eqb_refl.
Qed.

Lemma attempt_unfold timeouts p w :
  attempt timeouts p w
  = match _internalRegister w with
    | (Return _, w1) => (settle p Resolved, w1)
    | (Hang, w1) => (p, w1)
    | (Throw e, w1) =>
      match discovery (options w1) with
      | None => (p, w1)
      | Some d =>
        let failFast :=
          if Js.truthy (Js.get d "failFast") then
            match registration w1 with
            | None => None
            | Some _ =>
              Some (settle p (Rejected e),
                    (logger WARN
                       (Text ("Fail fast is false. Error registering service with consul: [object Object] "
                              +:+ Js.error_string e))
                       w1).2)
            end
          else Some (p, w1) in
        match failFast with
        | None => (p, w1)
        | Some (p1, w2) =>
          match timeouts with
          | _ :: later => attempt later p1 w2
          | [] => (settle p1 (Rejected e), w2)
          end
        end
      end
    end.
Proof. by destruct timeouts. Qed.

(** A settled promise stays as it is, whatever the later runs do. *)
Lemma attempt_settled timeouts p w :
  p ≠ Pending → (attempt timeouts p w).1 = p.
Proof.
  revert p w. induction timeouts as [|t later IH]; intros p w Hp;
    rewrite attempt_unfold;
    destruct (_internalRegister w) as [[[]|e|] w1]; simpl;
    try (by destruct p);
    destruct (discovery (options w1)) as [d|]; simpl; try done;
    destruct (Js.truthy (Js.get d "failFast")); simpl;
    try destruct (registration w1); simpl; try done;
    try (by destruct p);
    try (rewrite IH; by destruct p).
Qed.

Lemma attempt_until_accepted N :
  ∀ timeouts w reg so d hb b,
    registration w = Some reg →
    service (options w) = Some so →
    discovery (options w) = Some d →
    Js.truthy (Js.get d "failFast") = false →
    heartbeat (options w) = Some hb →
    consul (client w) = Some b →
    fails_then_accepts N b →
    (N ≤ length timeouts)%nat →
    ∃ w' evs,
      attempt timeouts Pending w = (Resolved, w')
      ∧ trace w' = (trace w ++ evs)%list
      ∧ register_attempts evs = S N
      ∧ enrollments (getInstanceId reg) evs
        = if enrolls hb (ttlScheduler w) reg then 1 else 0.
Proof.
  induction N as [|N IH]; intros timeouts w reg so d hb b Hr Hs Hd Hff Hh Hc Hb Hlen.
  - destruct (Hb (service_object reg so (token_object (client w)))) as (b' & Hreg).
    rewrite attempt_unfold,
      (internalRegister_accepted w reg so hb b b' Hr Hs Hh Hc Hreg).
    simpl. eexists _, _. split; [reflexivity |]. split; [reflexivity |].
    split; [apply register_attempts_accepted | apply enrollments_accepted].
  - destruct (Hb (service_object reg so (token_object (client w))))
      as (e & b' & Hreg & Hnext).
    rewrite attempt_unfold,
      (internalRegister_rejected w reg so b e b' Hr Hs Hc Hreg).
    simpl. rewrite Hd. simpl. rewrite Hff. simpl.
    destruct timeouts as [|t later]; [simpl in Hlen; lia |].
    destruct (IH later (after_call b'
                (attempt_events reg (service_object reg so (token_object (client w)))
                   (inl e)) w) reg so d hb b')
      as (w' & evs & Hrun & Htrace & Hattempts & Henrolled);
      try done; [simpl in Hlen; lia |].
    exists w', (attempt_events reg (service_object reg so (token_object (client w)))
                  (inl e) ++ evs)%list.
    split; [exact Hrun |].
    split; [rewrite Htrace; simpl; by rewrite <- app_assoc |].
    split.
    + unfold register_attempts in *. rewrite count_app, Hattempts. reflexivity.
    + unfold enrollments in *. rewrite count_app, Henrolled. reflexivity.
Qed.

(** The retry loop under the enrollment guard of _internalRegister.
    Given a backend that rejects the first N register calls and accepts
    the next one, discovery.failFast not set to a true value and N below
    the attempts the retry operation allows, register() on an
    initialised registry resolves after N + 1 register calls, and the
    instance id is added to the scheduler once when the guard holds
    (heartbeating enabled, a scheduler present, a ttl on the registered
    check) and not at all when it does not. *)
Lemma register_retries_until_accepted N w reg so d hb b :
  registration w = Some reg →
  service (options w) = Some so →
  discovery (options w) = Some d →
  Js.truthy (Js.get d "failFast") = false →
  heartbeat (options w) = Some hb →
  consul (client w) = Some b →
  fails_then_accepts N b →
  (N < max_attempts)%nat →
  ∃ w' evs,
    register w = (Return tt, w')
    ∧ trace w' = (trace w ++ evs)%list
    ∧ register_attempts evs = S N
    ∧ enrollments (getInstanceId reg) evs
      = if enrolls hb (ttlScheduler w) reg then 1 else 0.
Proof.
  intros Hr Hs Hd Hff Hh Hc Hb Hlen.
  destruct (attempt_until_accepted N retry_timeouts w reg so d hb b)
    as (w' & evs & Hrun & Hrest); try done.
  { unfold max_attempts in Hlen. lia. }
  exists w', evs. split; [| exact Hrest].
  unfold register. by rewrite Hrun.
Qed.

Lemma attempt_until_accepted_enrolled N :
  ∀ timeouts w reg so d hb s b,
    registration w = Some reg →
    service (options w) = Some so →
    discovery (options w) = Some d →
    Js.truthy (Js.get d "failFast") = false →
    heartbeat (options w) = Some hb →
    enabled hb = true →
    ttlScheduler w = Some s →
    Js.is_nullish (registration_ttl reg) = false →
    consul (client w) = Some b →
    fails_then_accepts N b →
    (N ≤ length timeouts)%nat →
    ∃ w' evs svc,
      attempt timeouts Pending w = (Resolved, w')
      ∧ trace w' = (trace w ++ evs)%list
      ∧ register_attempts evs = S N
      ∧ last evs = Some (Logged LOG (Text "service registered"))
      ∧ AgentRegister svc (inr tt) ∈ evs
      ∧ enrollments (getInstanceId reg) evs = 1
      ∧ ttlScheduler w' = Some (TtlScheduler_add (getInstanceId reg) s).
Proof.
  induction N as [|N IH];
    intros timeouts w reg so d hb s b Hr Hs Hd Hff Hh Hen Hsched Httl Hc Hb Hlen.
  - destruct (Hb (service_object reg so (token_object (client w)))) as (b' & Hreg).
    rewrite attempt_unfold,
      (internalRegister_accepted w reg so hb b b' Hr Hs Hh Hc Hreg).
    assert (Hguard : enrolls hb (ttlScheduler w) reg = true).
    { unfold enrolls. by rewrite Hen, Hsched, Httl. }
    rewrite Hguard, Hsched. simpl. eexists _, _, _.
    split; [reflexivity |]. split; [reflexivity |].
    split; [apply register_attempts_accepted |].
    split; [reflexivity |].
    split; [apply elem_of_cons; right; apply elem_of_cons; by left |].
    split; [apply (enrollments_accepted reg _ true) | reflexivity].
  - destruct (Hb (service_object reg so (token_object (client w))))
      as (e & b' & Hreg & Hnext).
    rewrite attempt_unfold,
      (internalRegister_rejected w reg so b e b' Hr Hs Hc Hreg).
    simpl. rewrite Hd. simpl. rewrite Hff. simpl.
    destruct timeouts as [|t later]; [simpl in Hlen; lia |].
    destruct (IH later (after_call b'
                (attempt_events reg (service_object reg so (token_object (client w)))
                   (inl e)) w) reg so d hb s b')
      as (w' & evs & svc & Hrun & Htrace & Hattempts & Hlast & Hin & Henrolled & Hs');
      try done; [simpl in Hlen; lia |].
    exists w', (attempt_events reg (service_object reg so (token_object (client w)))
                  (inl e) ++ evs)%list, svc.
    split; [exact Hrun |].
    split; [rewrite Htrace; simpl; by rewrite <- app_assoc |].
    split; [unfold register_attempts in *; by rewrite count_app, Hattempts |].
    split; [simpl; destruct evs; [discriminate Hlast | exact Hlast] |].
    split; [apply elem_of_app; by right |].
    split; [unfold enrollments in *; by rewrite count_app, Henrolled |].
    exact Hs'.
Qed.

(** C5. For every N, given a backend whose register call is rejected on
    the first N attempts and accepted on the next, with
    discovery.failFast not true and N below the attempts the retry
    operation allows, register() on the registry init has set up
    resolves, after N + 1 register calls of which the last is the
    accepted one, and the instance id is enrolled in the scheduler
    exactly once. Heartbeating is enabled, as the enrollment supposes;
    init then creates the scheduler, and the registration the builder
    gives carries the ttl of its check. *)
Theorem register_retries_then_enrolls_once N w hb d so reg b :
  heartbeat (options w) = Some hb →
  enabled hb = true →
  discovery (options w) = Some d →
  Js.truthy (Js.get d "failFast") = false →
  service (options w) = Some so →
  build (builder_input (options w) d hb) = inr reg →
  Js.is_nullish (registration_ttl reg) = false →
  consul (client w) = Some b →
  fails_then_accepts N b →
  (N < max_attempts)%nat →
  ∃ w1 w' evs svc,
    init build w = (Return tt, w1)
    ∧ register w1 = (Return tt, w')
    ∧ trace w' = (trace w1 ++ evs)%list
    ∧ register_attempts evs = S N
    ∧ last evs = Some (Logged LOG (Text "service registered"))
    ∧ AgentRegister svc (inr tt) ∈ evs
    ∧ enrollments (getInstanceId reg) evs = 1
    ∧ tasks <$> ttlScheduler w' = Some {[ getInstanceId reg ]}.
Proof.
  intros Hh Hen Hd Hff Hs Hbuild Httl Hc Hb Hlen.
  destruct (init_connected w hb d reg b Hh Hd Hbuild Hc)
    as (w1 & Hinit & Ho & Hr & Hsched & Hcl & _).
  rewrite Hen in Hsched.
  destruct (attempt_until_accepted_enrolled N retry_timeouts w1 reg so d hb
              {| tasks := ∅ |} b)
    as (w' & evs & svc & Hrun & Htrace & Hattempts & Hlast & Hin & Henrolled & Hs');
    rewrite ?Ho, ?Hcl; try done.
  { unfold max_attempts in Hlen. lia. }
  exists w1, w', evs, svc. split; [exact Hinit |].
  split; [unfold register; by rewrite Hrun |].
  split; [exact Htrace |]. split; [exact Hattempts |]. split; [exact Hlast |].
  split; [exact Hin |]. split; [exact Henrolled |].
  rewrite Hs'. simpl. by rewrite union_empty_r_L.
Qed.

(** With fail-fast set and a backend that keeps rejecting, every delay of
    the operation is still used: the promise is rejected by the first
    run, and the register call is made once per allowed attempt. *)
Lemma attempt_failFast_uses_every_retry timeouts :
  ∀ p w reg so d b e,
    registration w = Some reg →
    service (options w) = Some so →
    discovery (options w) = Some d →
    Js.truthy (Js.get d "failFast") = true →
    consul (client w) = Some b →
    rejects (S (length timeouts)) e b →
    ∃ w' evs,
      attempt timeouts p w = (settle p (Rejected e), w')
      ∧ trace w' = (trace w ++ evs)%list
      ∧ register_attempts evs = S (length timeouts).
Proof.
  induction timeouts as [|t later IH]; intros p w reg so d b e Hr Hs Hd Hff Hc Hb;
    destruct (Hb (service_object reg so (token_object (client w))))
      as (b' & Hreg & Hnext);
    rewrite attempt_unfold,
      (internalRegister_rejected w reg so b e b' Hr Hs Hc Hreg);
    simpl; rewrite Hd; simpl; rewrite Hff, Hr; run.
  - eexists _, _. split; [by destruct p |].
    split; [by rewrite <- app_assoc |]. reflexivity.
  - match goal with
    | |- context [attempt later ?p1 ?w1] =>
      destruct (IH p1 w1 reg so d b' e) as (w' & evs & Hrun & Htrace & Hattempts);
        try done
    end.
    eexists w', _. split; [rewrite Hrun; by destruct p |].
    split; [rewrite Htrace; simpl; rewrite <- !app_assoc; reflexivity |].
    simpl. unfold register_attempts in *. simpl. by rewrite Hattempts.
Qed.

(** C1, what the code does instead. With discovery.failFast true and a
    backend that rejects every register call, register() rejects with
    the backend's error, but the register call is made once per attempt
    the retry operation allows (eleven times), not once: after reject(e)
    the callback goes on to operation.retry(e). *)
Theorem failFast_register_uses_every_retry w reg so d b e :
  registration w = Some reg →
  service (options w) = Some so →
  discovery (options w) = Some d →
  Js.truthy (Js.get d "failFast") = true →
  consul (client w) = Some b →
  rejects max_attempts e b →
  ∃ w' evs,
    register w = (Throw e, w')
    ∧ trace w' = (trace w ++ evs)%list
    ∧ register_attempts evs = max_attempts
    ∧ max_attempts = 11.
Proof.
  intros Hr Hs Hd Hff Hc Hb.
  destruct (attempt_failFast_uses_every_retry retry_timeouts Pending w reg so d b e)
    as (w' & evs & Hrun & Htrace & Hattempts); try done.
  exists w', evs. unfold register. rewrite Hrun. done.
Qed.

(** With fail-fast set, a rejected first call rejects the promise with
    that error, whatever the backend does afterwards. *)
Lemma attempt_failFast_rejects_at_once timeouts w reg so d b e :
  registration w = Some reg →
  service (options w) = Some so →
  discovery (options w) = Some d →
  Js.truthy (Js.get d "failFast") = true →
  consul (client w) = Some b →
  rejects 1 e b →
  (attempt timeouts Pending w).1 = Rejected e.
Proof.
  intros Hr Hs Hd Hff Hc Hb.
  destruct (Hb (service_object reg so (token_object (client w)))) as (b' & Hreg & _).
  rewrite attempt_unfold,
    (internalRegister_rejected w reg so b e b' Hr Hs Hc Hreg).
  simpl. rewrite Hd. simpl. rewrite Hff, Hr. simpl.
  destruct timeouts as [|t later]; [reflexivity |].
  by apply attempt_settled.
Qed.

(** *** The module hooks *)

(** C3, as the code has it. When startup registration fails on the
    fail-fast path (discovery.failFast true, the backend rejects the
    register call), the error does not leave the module-initialisation
    hook: onModuleInit catches it, logs it at error level and returns
    normally, so the hook itself does not abort startup. *)
Theorem onModuleInit_contains_failFast_rejection w hb d reg so b e :
  heartbeat (options w) = Some hb →
  discovery (options w) = Some d →
  Js.truthy (Js.get d "failFast") = true →
  build (builder_input (options w) d hb) = inr reg →
  service (options w) = Some so →
  consul (client w) = Some b →
  rejects 1 e b →
  ∃ w', onModuleInit build w = (Return tt, w')
    ∧ Logged ERROR (Thrown e) ∈ trace w'.
Proof.
  intros Hh Hd Hff Hbuild Hs Hc Hb.
  destruct (init_connected w hb d reg b Hh Hd Hbuild Hc)
    as (w1 & Hinit & Ho & Hr & _ & Hcl & _).
  assert (Hp : (attempt retry_timeouts Pending w1).1 = Rejected e).
  { apply (attempt_failFast_rejects_at_once _ w1 reg so d b e); try done.
    - by rewrite Ho.
    - by rewrite Ho.
    - by rewrite Hcl. }
  destruct (attempt retry_timeouts Pending w1) as [p w2] eqn:Hrun.
  simpl in Hp. subst p.
  unfold onModuleInit, try_catch, mbind, M_bind, bind, register.
  rewrite Hinit, Hrun.
  eexists. split; [reflexivity |].
  apply elem_of_app. right. apply elem_of_cons. by left.
Qed.

(** Nothing thrown inside the hook leaves it. *)
Lemma onModuleInit_never_throws w e : (onModuleInit build w).1 ≠ Throw e.
Proof.
  unfold onModuleInit, try_catch, mbind, M_bind, bind.
  destruct (init build w) as [[[]|e0|] w1]; try done.
  by destruct (register w1) as [[[]|e1|] w2].
Qed.

(** C4, as the code has it. On shutdown the hook only deregisters: the
    instance id is removed from the scheduler (when there is one) before
    the backend's deregister call is issued, a rejected deregister is
    logged and not thrown, and no watch is stopped: end() is called on no
    handle and the catalog watch and the per-service watches are left as
    they were. close() changes nothing. *)
Theorem shutdown_deregisters_and_stops_no_watch w reg b :
  registration w = Some reg →
  consul (client w) = Some b →
  ∃ w' r,
    let opts := Js.spread {[ "id" := Js.Str (getInstanceId reg) ]}
                          (token_object (client w)) in
    let evs := deregister_events reg (ttlScheduler w) opts r in
    onModuleDestroy w = (Return tt, w')
    ∧ r = (agent_service_deregister opts b).1
    ∧ trace w' = (trace w ++ evs)%list
    ∧ ended_handles evs = []
    ∧ ttlScheduler w' = TtlScheduler_remove (getInstanceId reg) <$> ttlScheduler w
    ∧ handles w' = handles w
    ∧ watcher w' = watcher w
    ∧ watchers w' = watchers w
    ∧ close w = (Return tt, w).
Proof.
  intros Hr Hc.
  destruct (agent_service_deregister
              (Js.spread {[ "id" := Js.Str (getInstanceId reg) ]}
                         (token_object (client w))) b) as [r b'] eqn:Hb.
  unfold onModuleDestroy, deregister, the_registration, getToken,
    TtlScheduler_call, call.
  run. rewrite Hr. run.
  destruct (ttlScheduler w) as [s|] eqn:Hsched; run; rewrite Hc, Hb; run;
    destruct r as [e|[]]; run;
    eexists _, _; (split; [reflexivity |]); (split; [reflexivity |]);
    unfold deregister_events; simpl; rewrite <- ?app_assoc; simpl;
    repeat split; reflexivity.
Qed.

(** *** Status *)

(** The loop of [getStatus] finds the marker exactly when it is listed. *)
Lemma maintenance_marked_spec (id : string) (checks : list Check) :
  maintenance_marked id checks = true ↔ has_marker id checks.
Proof.
  unfold has_marker. induction checks as [|c checks IH]; simpl.
  - split; [discriminate |]. intros (c & Hin & _). by apply elem_of_nil in Hin.
  - destruct (String.eqb (ServiceID c) id) eqn:Hid;
      [destruct (String.eqb (Name c) MAINTENANCE) eqn:Hname |].
    + apply String.eqb_eq in Hid, Hname. split; [| done].
      intros _. exists c. split; [by left | done].
    + apply String.eqb_neq in Hname. rewrite IH. split.
      * intros (c' & Hin & Hc'). exists c'. split; [by right | done].
      * intros (c' & [-> | Hin]%elem_of_cons & Hid' & Hname'); [done |].
        by exists c'.
    + apply String.eqb_neq in Hid. rewrite IH. split.
      * intros (c' & Hin & Hc'). exists c'. split; [by right | done].
      * intros (c' & [-> | Hin]%elem_of_cons & Hid' & Hname'); [done |].
        by exists c'.
Qed.

Lemma getStatus_after_setStatus (enable : bool) w reg b :
  registration w = Some reg →
  consul (client w) = Some b →
  records_maintenance (getInstanceId reg) (getServiceId reg) →
  ∃ w1 w2 b2,
    setStatus (status_name enable) w = (Return tt, w1)
    ∧ getStatus w1 = (Return {[ "status" := Js.Str (status_name enable) ]}, w2)
    ∧ registration w2 = Some reg
    ∧ consul (client w2) = Some b2.
Proof.
  intros Hr Hc Hback.
  destruct (Hback enable b) as (b1 & Hm & checks & b2 & Hchecks & Hmarked).
  assert (Hset : setStatus (status_name enable) w
                 = (Return tt,
                    after_call b1
                      [AgentMaintenance (getInstanceId reg) enable (inr tt)] w)).
  { unfold setStatus, the_registration.
    destruct enable; simpl; run; rewrite Hr; run;
      by rewrite (call_run _ _ w b (inr tt) b1 Hc Hm). }
  exists (after_call b1 [AgentMaintenance (getInstanceId reg) enable (inr tt)] w),
    (after_call b2 [HealthChecks (getServiceId reg)]
       (after_call b1 [AgentMaintenance (getInstanceId reg) enable (inr tt)] w)),
    b2.
  split; [exact Hset |]. split; [| by split].
  unfold getStatus, the_registration. run. rewrite Hr. run.
  erewrite call_run; [| reflexivity | exact Hchecks]. simpl.
  rewrite <- maintenance_marked_spec in Hmarked.
  destruct (maintenance_marked (getInstanceId reg) checks), enable;
    try reflexivity.
  - by destruct Hmarked as [Hmarked _]; discriminate Hmarked.
  - by destruct Hmarked as [_ Hmarked]; discriminate Hmarked.
Qed.

(** C9. With a backend that lists the maintenance marker among the
    instance's health checks when maintenance is switched on and no
    longer when it is switched off, setStatus('OUT_OF_SERVICE')
    followed by getStatus() gives status OUT_OF_SERVICE, and a following
    setStatus('UP') and getStatus() give status UP. *)
Theorem status_round_trip w reg b :
  registration w = Some reg →
  consul (client w) = Some b →
  records_maintenance (getInstanceId reg) (getServiceId reg) →
  ∃ w1 w2 w3 w4,
    setStatus "OUT_OF_SERVICE" w = (Return tt, w1)
    ∧ getStatus w1 = (Return {[ "status" := Js.Str "OUT_OF_SERVICE" ]}, w2)
    ∧ setStatus "UP" w2 = (Return tt, w3)
    ∧ getStatus w3 = (Return {[ "status" := Js.Str "UP" ]}, w4).
Proof.
  intros Hr Hc Hback.
  destruct (getStatus_after_setStatus true w reg b Hr Hc Hback)
    as (w1 & w2 & b2 & Hset & Hget & Hr2 & Hc2).
  destruct (getStatus_after_setStatus false w2 reg b2 Hr2 Hc2 Hback)
    as (w3 & w4 & _ & Hset' & Hget' & _).
  by exists w1, w2, w3, w4.
Qed.

(** *** The watch engine *)

Lemma member_none (m : WatcherMap) (name : string) :
  props m !! name = None → member m name = member new_Map name.
Proof. intros Hm. unfold member, new_Map. simpl. by rewrite Hm, lookup_empty. Qed.

(** Within one watcher object [watch] does end the handle it replaces:
    the property of the name is found, ended, and overwritten. *)
Lemma watch_ends_the_handle_it_replaces name h w b :
  consul (client w) = Some b →
  props (watchers w) !! name = Some h →
  ∃ w',
    watch name w = (Return tt, w')
    ∧ trace w'
      = (trace w ++ [WatchEnded h; WatchCreated (length (handles w)) (HealthService name)])%list
    ∧ handles w'
      = (alter end_handle h (handles w)
           ++ [mkWatch (HealthService name)
                 (watch_options_for name (token_object (client w))) false])%list
    ∧ props (watchers w') !! name = Some (length (handles w)).
Proof.
  intros Hc Hp.
  unfold watch, getToken, consul_watch, assign_member, Watch_end, member.
  run. rewrite Hc. run. rewrite Hp. run. rewrite Hp. run.
  rewrite length_alter.
  eexists. split; [reflexivity |]. simpl.
  split; [by rewrite <- !app_assoc |]. split; [reflexivity |].
  apply lookup_insert_eq.
Qed.

(** The part of the callback after the await, for an answered query. *)
Lemma store_and_watch_answered name nodes w b :
  consul (client w) = Some b →
  ordinary name →
  ∃ w' evs,
    store_and_watch consulServiceToServiceInstance name (inr nodes) w
    = (Return (inr tt), w')
    ∧ client w' = client w
    ∧ entries (watchers w') = entries (watchers w)
    ∧ props (watchers w') = <[name := length (handles w)]> (props (watchers w))
    ∧ serviceStore w'
      = <[name := consulServiceToServiceInstance nodes]> (serviceStore w)
    ∧ handles w'
      = (match props (watchers w) !! name with
         | Some h => alter end_handle h (handles w)
         | None => handles w
         end
           ++ [mkWatch (HealthService name)
                 (watch_options_for name (token_object (client w))) false])%list
    ∧ trace w' = (trace w ++ evs)%list
    ∧ created_for evs = [name]
    ∧ stored_for evs = [name]
    ∧ ended_handles evs
      = match props (watchers w) !! name with
        | Some h => [h]
        | None => []
        end.
Proof.
  intros Hc Hord.
  unfold store_and_watch, setServices, watch, getToken, consul_watch, assign_member,
    Watch_end.
  run. rewrite Hc. run.
  destruct (props (watchers w) !! name) as [h|] eqn:Hp.
  - unfold member. rewrite Hp. run. rewrite Hp. run.
    rewrite length_alter.
    eexists _, _. split; [reflexivity |]. simpl.
    repeat (split; [reflexivity |]).
    split; [by rewrite <- !app_assoc |]. done.
  - rewrite (member_none _ _ Hp), Hord. run.
    rewrite (member_none _ _ Hp), Hord. run.
    eexists _, _. split; [reflexivity |]. simpl.
    repeat (split; [reflexivity |]).
    split; [by rewrite <- !app_assoc |]. done.
Qed.

Lemma watches_service_name name name' wt :
  watches_service name wt = true → watches_service name' wt = true → name = name'.
Proof.
  unfold watches_service. destruct (method wt) as [|n]; [done |].
  intros [H1 _]%andb_true_iff [H2 _]%andb_true_iff.
  apply String.eqb_eq in H1, H2. congruence.
Qed.

Lemma store_and_watch_keeps_running name nodes w w' b :
  consul (client w) = Some b →
  ordinary name →
  props_running w →
  (store_and_watch consulServiceToServiceInstance name (inr nodes) w).2 = w' →
  props_running w'.
Proof.
  intros Hc Hord Hinv <-.
  destruct (store_and_watch_answered name nodes w b Hc Hord)
    as (w' & evs & -> & _ & _ & Hprops & _ & Hhandles & _).
  simpl. intros name' h'. rewrite Hprops, Hhandles.
  set (before := match props (watchers w) !! name with
                 | Some h => alter end_handle h (handles w)
                 | None => handles w
                 end).
  assert (Hlen : length before = length (handles w)).
  { unfold before. destruct (props (watchers w) !! name); [apply length_alter | done]. }
  destruct (decide (name = name')) as [<- | Hne].
  - rewrite lookup_insert_eq. intros [= <-].
    eexists. split.
    + rewrite <- Hlen. apply list_lookup_middle. reflexivity.
    + unfold watches_service. simpl. by rewrite String.eqb_refl.
  - rewrite lookup_insert_ne by done. intros Hp'.
    destruct (Hinv name' h' Hp') as (wt & Hwt & Hrun).
    exists wt. split; [| exact Hrun].
    rewrite lookup_app_l by (rewrite Hlen; by eapply lookup_lt_Some).
    unfold before. destruct (props (watchers w) !! name) as [h|] eqn:Hp; [| exact Hwt].
    rewrite list_lookup_alter_ne; [exact Hwt |].
    intros ->. destruct (Hinv name h' Hp) as (wt' & Hwt' & Hrun').
    rewrite Hwt in Hwt'. injection Hwt' as <-.
    apply Hne. by eapply watches_service_name.
Qed.

Lemma mapM_cons {A C} (f : A → M C) (x : A) (l : list A) w :
  mapM f (x :: l) w
  = match f x w with
    | (Return y, w1) =>
      match mapM f l w1 with
      | (Return k, w2) => (Return (y :: k), w2)
      | (Throw e, w2) => (Throw e, w2)
      | (Hang, w2) => (Hang, w2)
      end
    | (Throw e, w1) => (Throw e, w1)
    | (Hang, w1) => (Hang, w1)
    end.
Proof.
  simpl. unfold mbind, M_bind, bind.
  destruct (f x w) as [[y|e|] w1]; [| done | done].
  by destruct (mapM f l w1) as [[k|e|] w2].
Qed.

Lemma store_and_watch_all svcs :
  ∀ (ns : list (list Js.Val)) w b,
    length ns = length svcs →
    consul (client w) = Some b →
    Forall ordinary svcs →
    props_running w →
    ∃ outcomes w' evs,
      mapM (λ '(service, answer),
              store_and_watch consulServiceToServiceInstance service answer)
           (zip svcs (inr <$> ns)) w
      = (Return outcomes, w')
      ∧ Promise_all outcomes w' = (Return tt, w')
      ∧ client w' = client w
      ∧ entries (watchers w') = entries (watchers w)
      ∧ dom (props (watchers w')) = dom (props (watchers w)) ∪ list_to_set svcs
      ∧ dom (serviceStore w') = dom (serviceStore w) ∪ list_to_set svcs
      ∧ props_running w'
      ∧ trace w' = (trace w ++ evs)%list
      ∧ created_for evs = svcs
      ∧ stored_for evs = svcs.
Proof.
  induction svcs as [|name svcs IH]; intros ns w b Hlen Hc Hord Hinv.
  - exists [], w, []. simpl. rewrite app_nil_r, !union_empty_r_L. done.
  - destruct ns as [|nodes ns]; [discriminate Hlen |].
    injection Hlen as Hlen. apply Forall_cons in Hord as [Hname Hord].
    destruct (store_and_watch_answered name nodes w b Hc Hname)
      as (w1 & evs1 & Hstep & Hc1 & He1 & Hp1 & Hs1 & _ & Ht1 & Hcr1 & Hst1 & _).
    assert (Hinv1 : props_running w1).
    { eapply store_and_watch_keeps_running; [exact Hc | exact Hname | exact Hinv |].
      by rewrite Hstep. }
    destruct (IH ns w1 b Hlen) as
      (outs & w' & evs & Hrun & Hall & Hc' & He' & Hp' & Hs' & Hinv' & Ht' & Hcr' & Hst');
      [by rewrite Hc1 | exact Hord | exact Hinv1 |].
    exists (inr tt :: outs), w', (evs1 ++ evs)%list.
    split.
    { change (zip (name :: svcs) (inr <$> nodes :: ns))
        with ((name, inr nodes : Reply (list Js.Val)) :: zip svcs (inr <$> ns)).
      rewrite mapM_cons. cbv beta iota. by rewrite Hstep, Hrun. }
    split; [exact Hall |].
    split; [by rewrite Hc', Hc1 |].
    split; [by rewrite He', He1 |].
    split.
    { rewrite Hp', Hp1, dom_insert_L, list_to_set_cons.
      by rewrite (comm_L (∪) {[name]}), <- (assoc_L (∪)). }
    split.
    { rewrite Hs', Hs1, dom_insert_L, list_to_set_cons.
      by rewrite (comm_L (∪) {[name]}), <- (assoc_L (∪)). }
    split; [exact Hinv' |].
    split; [by rewrite Ht', Ht1, <- app_assoc |].
    unfold created_for, stored_for in *.
    rewrite !omap_app, Hcr1, Hst1, Hcr', Hst'. done.
Qed.

(** For names the watcher object has no property of, and no two of them
    equal, the callbacks end no handle: each appends its own. *)
Lemma store_and_watch_new_names svcs :
  ∀ (ns : list (list Js.Val)) w b,
    length ns = length svcs →
    consul (client w) = Some b →
    Forall ordinary svcs →
    NoDup svcs →
    (∀ name, name ∈ svcs → props (watchers w) !! name = None) →
    ∃ outcomes w' evs new,
      mapM (λ '(service, answer),
              store_and_watch consulServiceToServiceInstance service answer)
           (zip svcs (inr <$> ns)) w
      = (Return outcomes, w')
      ∧ trace w' = (trace w ++ evs)%list
      ∧ ended_handles evs = []
      ∧ handles w' = (handles w ++ new)%list
      ∧ (∀ name, name ∉ svcs →
           props (watchers w') !! name = props (watchers w) !! name)
      ∧ (∀ name, name ∈ svcs →
           ∃ h, props (watchers w') !! name = Some h
                ∧ (length (handles w) ≤ h)%nat).
Proof.
  induction svcs as [|name svcs IH]; intros ns w b Hlen Hc Hord Hnodup Hnew.
  - exists [], w, [], []. simpl. rewrite !app_nil_r.
    repeat (split; [reflexivity |]).
    intros name Hin. by apply elem_of_nil in Hin.
  - destruct ns as [|nodes ns]; [discriminate Hlen |].
    injection Hlen as Hlen. apply Forall_cons in Hord as [Hname Hord].
    apply NoDup_cons in Hnodup as [Hfresh Hnodup].
    destruct (store_and_watch_answered name nodes w b Hc Hname)
      as (w1 & evs1 & Hstep & Hc1 & _ & Hp1 & _ & Hh1 & Ht1 & _ & _ & Hend1).
    rewrite (Hnew name) in Hh1, Hend1 by (by left).
    destruct (IH ns w1 b Hlen) as
      (outs & w' & evs & new & Hrun & Ht' & Hend' & Hh' & Hkeep & Hprops);
      [by rewrite Hc1 | exact Hord | exact Hnodup | |].
    { intros name' Hin. rewrite Hp1, lookup_insert_ne by (by intros ->).
      apply Hnew. by right. }
    eexists (inr tt :: outs), w', (evs1 ++ evs)%list, _.
    split.
    { change (zip (name :: svcs) (inr <$> nodes :: ns))
        with ((name, inr nodes : Reply (list Js.Val)) :: zip svcs (inr <$> ns)).
      rewrite mapM_cons. cbv beta iota. by rewrite Hstep, Hrun. }
    split; [by rewrite Ht', Ht1, <- app_assoc |].
    split; [unfold ended_handles in *; by rewrite omap_app, Hend1, Hend' |].
    split; [by rewrite Hh', Hh1, <- app_assoc |].
    split.
    + intros name' Hnot. rewrite not_elem_of_cons in Hnot. destruct Hnot as [Hne Hnot].
      rewrite (Hkeep name' Hnot), Hp1. by apply lookup_insert_ne.
    + intros name' [-> | Hin]%elem_of_cons.
      * exists (length (handles w)). split; [| done].
        rewrite (Hkeep name Hfresh), Hp1. apply lookup_insert_eq.
      * destruct (Hprops name' Hin) as (h & Hh & Hle). exists h. split; [exact Hh |].
        rewrite Hh1, length_app in Hle. simpl in Hle. lia.
Qed.

(** Ending the entries of the Map's own data creates no watch and writes
    no store entry. *)
Lemma forEach_end_entries (es : list (string * nat)) :
  ∀ w, ∃ w' evs,
    forEach (λ entry, Watch_end entry.2) es w = (Return tt, w')
    ∧ client w' = client w
    ∧ watchers w' = watchers w
    ∧ serviceStore w' = serviceStore w
    ∧ trace w' = (trace w ++ evs)%list
    ∧ ended_handles evs = es.*2
    ∧ created_for evs = []
    ∧ stored_for evs = [].
Proof.
  induction es as [|[name h] es IH]; intros w.
  - exists w, []. simpl. by rewrite app_nil_r.
  - destruct (IH (set_trace (trace w ++ [WatchEnded h])
                    (set_handles (alter end_handle h (handles w)) w)))
      as (w' & evs & Hrun & Hc & Hw & Hs & Ht & He & Hcr & Hst).
    exists w', (WatchEnded h :: evs).
    split; [exact Hrun |]. simpl in *.
    split; [exact Hc |]. split; [exact Hw |]. split; [exact Hs |].
    split; [by rewrite Ht, <- app_assoc |].
    split; [by rewrite He |]. done.
Qed.

(** The health queries of a rebuild, all of them answered. *)
Lemma query_services_answered svcs :
  ∀ w b,
    consul (client w) = Some b →
    (∀ name (b0 : B), name ∈ svcs → ∃ nodes b1, health_service name b0 = (inr nodes, b1)) →
    ∃ (ns : list (list Js.Val)) w' b' evs,
      mapM query_service svcs w = (Return (inr <$> ns), w')
      ∧ length ns = length svcs
      ∧ consul (client w') = Some b'
      ∧ watchers w' = watchers w
      ∧ handles w' = handles w
      ∧ serviceStore w' = serviceStore w
      ∧ trace w' = (trace w ++ evs)%list
      ∧ created_for evs = []
      ∧ stored_for evs = []
      ∧ ended_handles evs = [].
Proof.
  induction svcs as [|name svcs IH]; intros w b Hc Hans.
  - exists [], w, b, []. simpl. by rewrite app_nil_r.
  - destruct (Hans name b) as (nodes & b1 & Hq); [by left |].
    assert (Hstep : query_service name w
                    = (Return (inr nodes), after_call b1 [HealthServiceQuery name] w)).
    { unfold query_service, settled.
      by rewrite (call_run _ _ w b (inr nodes) b1 Hc Hq). }
    destruct (IH (after_call b1 [HealthServiceQuery name] w) b1) as
      (ns & w' & b' & evs & Hrun & Hlen & Hc' & Hw & Hh & Hs & Ht & Hcr & Hst & Hend);
      [reflexivity | intros n b0 Hn; apply Hans; by right |].
    exists (nodes :: ns), w', b', (HealthServiceQuery name :: evs).
    split.
    { change (inr <$> nodes :: ns)
        with ((inr nodes : Reply (list Js.Val)) :: (inr <$> ns)).
      by rewrite mapM_cons, Hstep, Hrun. }
    simpl in *. split; [by rewrite Hlen |].
    split; [exact Hc' |]. split; [exact Hw |]. split; [exact Hh |].
    split; [exact Hs |].
    split; [by rewrite Ht, <- app_assoc |]. done.
Qed.

Lemma buildServiceStore_unfold services w :
  buildServiceStore consulServiceToServiceInstance services w
  = match forEach (λ entry, Watch_end entry.2) (entries (watchers w)) w with
    | (Return _, wA) =>
      match mapM query_service services (set_watchers new_Map wA) with
      | (Return answers, wC) =>
        match mapM (λ '(service, answer),
                      store_and_watch consulServiceToServiceInstance service answer)
                   (zip services answers) wC with
        | (Return outcomes, wD) => Promise_all outcomes wD
        | (Throw e, wD) => (Throw e, wD)
        | (Hang, wD) => (Hang, wD)
        end
      | (Throw e, wC) => (Throw e, wC)
      | (Hang, wC) => (Hang, wC)
      end
    | (Throw e, wA) => (Throw e, wA)
    | (Hang, wA) => (Hang, wA)
    end.
Proof. reflexivity. Qed.

(** C2, what the code does instead. A rebuild ends none of the watches
    created before it. The handles are stored as properties of the
    watcher object, the Map's own data stays empty, and buildServiceStore
    ends only what forEach finds there: on a catalog change no handle is
    ended, every earlier handle is left as it was, and a name of the new
    catalog that already had a running watch has two afterwards. *)
Theorem rebuild_ends_no_earlier_watch (data : Js.Obj) w b :
  let svcs := filter (λ value, value ≠ "consul") (Js.keys data) in
  consul (client w) = Some b →
  answers_health (B := B) svcs →
  Forall ordinary svcs →
  entries (watchers w) = [] →
  ∃ w' evs,
    on_catalog_change consulServiceToServiceInstance data w = (Return tt, w')
    ∧ trace w' = (trace w ++ evs)%list
    ∧ ended_handles evs = []
    ∧ entries (watchers w') = []
    ∧ (∀ h wt, handles w !! h = Some wt → handles w' !! h = Some wt)
    ∧ (∀ name h0 wt0,
         name ∈ svcs →
         handles w !! h0 = Some wt0 →
         watches_service name wt0 = true →
         ∃ h wt, h ≠ h0
                 ∧ handles w' !! h0 = Some wt0
                 ∧ handles w' !! h = Some wt
                 ∧ watches_service name wt = true).
Proof.
  intros svcs Hc Hans Hord Hentries.
  assert (Hnodup : NoDup svcs).
  { apply NoDup_filter, NoDup_fst_map_to_list. }
  set (wB := set_watchers new_Map w).
  destruct (query_services_answered svcs wB b) as
    (ns & wC & bC & evsC & HrunC & Hlen & HcC & HwC & HhC & _ & HtC & _ & _ & HendC);
    [exact Hc | intros name b0 Hin; by apply Hans |].
  assert (Hempty : ∀ name, props (watchers wC) !! name = None).
  { intros name. rewrite HwC. simpl. apply lookup_empty. }
  destruct (store_and_watch_all svcs ns wC bC Hlen HcC Hord) as
    (outs & wD & evsD & HrunD & Hall & _ & HeD & _ & _ & Hinv & _).
  { intros name h. by rewrite Hempty. }
  destruct (store_and_watch_new_names svcs ns wC bC Hlen HcC Hord Hnodup) as
    (outs' & wD' & evsD' & new & HrunD' & HtD & HendD & HhD & _ & Hprops).
  { intros name _. apply Hempty. }
  rewrite HrunD in HrunD'. injection HrunD' as <- <-.
  assert (Hkept : ∀ h wt, handles w !! h = Some wt → handles wD !! h = Some wt).
  { intros h wt Hh. rewrite HhD, HhC. simpl.
    rewrite lookup_app_l; [exact Hh | by eapply lookup_lt_Some]. }
  exists wD, (evsC ++ evsD')%list.
  split.
  { unfold on_catalog_change. fold svcs.
    rewrite buildServiceStore_unfold, Hentries. simpl forEach. cbv beta iota.
    unfold ret. change (set_watchers new_Map w) with wB.
    by rewrite HrunC, HrunD, Hall. }
  split; [rewrite HtD, HtC; simpl; by rewrite <- app_assoc |].
  split; [unfold ended_handles in *; by rewrite omap_app, HendC, HendD |].
  split; [by rewrite HeD, HwC |].
  split; [exact Hkept |].
  intros name h0 wt0 Hin Hh0 Hrunning.
  destruct (Hprops name Hin) as (h & Hh & Hle).
  destruct (Hinv name h Hh) as (wt & Hwt & Hrun).
  exists h, wt. split.
  - apply lookup_lt_Some in Hh0. rewrite HhC in Hle. simpl in Hle. lia.
  - split; [by apply Hkept |]. by split.
Qed.

(** *** Status, beyond the round trip *)

(** X4. A status other than OUT_OF_SERVICE and UP makes setStatus throw
    Error('Unknown status ' + status) before anything is called: the
    backend is not contacted and the world is left as it was. *)
Theorem setStatus_refuses_unknown_status (status : string) w :
  status ≠ "OUT_OF_SERVICE" →
  status ≠ "UP" →
  setStatus status w = (Throw (Js.Err ("Unknown status " +:+ status)), w).
Proof.
  intros Hout Hup. unfold setStatus.
  apply String.eqb_neq in Hout, Hup. by rewrite Hout, Hup.
Qed.

(** X5. getStatus decides on the maintenance marker alone. On an
    initialised, connected registry it queries the checks of the
    service id once; a rejected query is thrown on; otherwise the status
    is OUT_OF_SERVICE exactly when some check carries the instance id
    and the name 'Service Maintenance Mode', and UP in every other case,
    whatever the other checks say. Only the backend and the record of
    calls change. *)
Theorem getStatus_reads_the_marker_only w reg b r b' :
  registration w = Some reg →
  consul (client w) = Some b →
  health_checks (getServiceId reg) b = (r, b') →
  ∃ out,
    getStatus w = (out, after_call b' [HealthChecks (getServiceId reg)] w)
    ∧ match r with
      | inl e => out = Throw e
      | inr checks =>
        (has_marker (getInstanceId reg) checks →
         out = Return {[ "status" := Js.Str "OUT_OF_SERVICE" ]})
        ∧ (¬ has_marker (getInstanceId reg) checks →
           out = Return {[ "status" := Js.Str "UP" ]})
      end.
Proof.
  intros Hr Hc Hq. unfold getStatus, the_registration. run. rewrite Hr. run.
  erewrite call_run; [| exact Hc | exact Hq].
  destruct r as [e | checks]; simpl; [by eexists |].
  destruct (maintenance_marked (getInstanceId reg) checks) eqn:Hm;
    eexists; (split; [reflexivity |]); split; try done.
  - intros Hno. exfalso. apply Hno. by apply maintenance_marked_spec.
  - intros Hyes. apply maintenance_marked_spec in Hyes. congruence.
Qed.

(** *** The generated service *)

Lemma omit_undefined_lookup (check : Js.Val) (k : string) :
  omit_undefined check !! k ≠ Some Js.Undefined.
Proof.
  destruct check as [| | | | | |o]; simpl; try (by rewrite lookup_empty).
  intros [_ Hdef]%map_lookup_filter_Some. discriminate Hdef.
Qed.

(** X6. What generateService sends to the backend, property by
    property. The ACL token, when the client has a non-empty one, is the
    token property. The check property is always an object, the
    registration's check without its undefined properties (empty when
    the registration has none). Any other property the registration's
    service has wins over the service options; the remaining properties
    come from the service options, except checks, which the options
    never contribute. The registry itself is not changed. *)
Theorem generateService_layers w reg so :
  registration w = Some reg →
  service (options w) = Some so →
  ∃ svc check,
    generateService w = (Return svc, w)
    ∧ (∀ t, aclToken (client w) = Some t → t ≠ "" →
         svc !! "token" = Some (Js.Str t))
    ∧ svc !! "check" = Some (Js.Object check)
    ∧ (∀ k, check !! k ≠ Some Js.Undefined)
    ∧ (∀ o k v, Js.get (getService reg) "check" = Js.Object o →
         o !! k = Some v → v ≠ Js.Undefined → check !! k = Some v)
    ∧ (∀ k v, k ≠ "check" → k ≠ "token" →
         getService reg !! k = Some v → svc !! k = Some v)
    ∧ (∀ k, k ≠ "check" → k ≠ "token" → k ≠ "checks" →
         getService reg !! k = None → svc !! k = so !! k)
    ∧ (getService reg !! "checks" = None → svc !! "checks" = None).
Proof.
  intros Hr Hs.
  exists (service_object reg so (token_object (client w))),
    (omit_undefined (Js.get (getService reg) "check")).
  split.
  { unfold generateService, getToken, the_registration. run.
    rewrite Hr. run. by rewrite Hs. }
  unfold service_object.
  split.
  { intros t Ht Hne. apply JsFacts.spread_lookup_override.
    unfold token_object. rewrite Ht. simpl.
    apply String.eqb_neq in Hne. rewrite Hne. apply lookup_singleton_eq. }
  split.
  { rewrite JsFacts.spread_lookup_keep by (by apply token_object_only_token).
    apply JsFacts.spread_lookup_override, lookup_singleton_eq. }
  split; [apply omit_undefined_lookup |].
  split.
  { intros o k v -> Hk Hv. simpl. apply map_lookup_filter_Some.
    split; [exact Hk | by destruct v]. }
  assert (Hbelow : ∀ k, k ≠ "check" → k ≠ "token" →
            Js.spread
              (Js.spread (Js.spread (delete "checks" so) (getService reg))
                         {[ "check" := Js.Object
                              (omit_undefined (Js.get (getService reg) "check")) ]})
              (token_object (client w)) !! k
            = Js.spread (delete "checks" so) (getService reg) !! k).
  { intros k Hcheck Htoken.
    rewrite JsFacts.spread_lookup_keep by (by apply token_object_only_token).
    apply JsFacts.spread_lookup_keep. by apply lookup_singleton_ne. }
  split.
  { intros k v Hcheck Htoken Hk. rewrite Hbelow by done.
    by apply JsFacts.spread_lookup_override. }
  split.
  { intros k Hcheck Htoken Hchecks Hk. rewrite Hbelow by done.
    rewrite JsFacts.spread_lookup_keep by exact Hk.
    by apply lookup_delete_ne. }
  intros Hk. rewrite Hbelow by done.
  rewrite JsFacts.spread_lookup_keep by exact Hk.
  apply lookup_delete_eq.
Qed.

(** *** The hooks, beyond the fail-fast path *)

(** X7. Once the registry is initialised, deregister never throws,
    connected or not and whatever the backend answers: a client without
    a consul instance and a rejected deregister call are both logged at
    error level. The instance id is removed from the scheduler in every
    case, and neither the watches nor the store are touched. *)
Theorem deregister_is_best_effort w reg :
  registration w = Some reg →
  ∃ w',
    deregister w = (Return tt, w')
    ∧ ttlScheduler w' = TtlScheduler_remove (getInstanceId reg) <$> ttlScheduler w
    ∧ registration w' = Some reg
    ∧ handles w' = handles w
    ∧ watchers w' = watchers w
    ∧ serviceStore w' = serviceStore w
    ∧ (consul (client w) = None →
       last (trace w')
       = Some (Logged ERROR
                 (Thrown (Js.TypeError "Cannot read properties of undefined")))).
Proof.
  intros Hr.
  unfold deregister, the_registration, getToken, TtlScheduler_call, call.
  run. rewrite Hr. run.
  destruct (ttlScheduler w) as [s|] eqn:Hsched; run;
    (destruct (consul (client w)) as [b|] eqn:Hc; run;
     [destruct (agent_service_deregister _ b) as [[e|[]] b'] eqn:Hb; run |]);
    eexists; (split; [reflexivity |]); simpl; rewrite ?Hr;
    repeat (split; [reflexivity |]);
    first [discriminate | intros _; by rewrite last_snoc].
Qed.

(** X8. A startup that failed on the configuration is silent, and the
    shutdown after it is not: with the heartbeat or the discovery
    options absent, onModuleInit logs the error and returns normally
    without storing a registration, and onModuleDestroy on the registry
    it leaves behind throws a TypeError (deregister reads the instance
    id of a registration that does not exist) without calling the
    backend. *)
Theorem shutdown_after_failed_init_throws w :
  registration w = None →
  heartbeat (options w) = None ∨ discovery (options w) = None →
  ∃ e w',
    onModuleInit build w = (Return tt, w')
    ∧ configuration_error e
    ∧ trace w' = (trace w ++ [Logged ERROR (Thrown e)])%list
    ∧ registration w' = None
    ∧ client w' = client w
    ∧ onModuleDestroy w'
      = (Throw (Js.TypeError "Cannot read properties of undefined"), w').
Proof.
  intros Hr Habsent.
  assert (Hinit : ∃ e, init build w = (Throw e, w) ∧ configuration_error e).
  { unfold init, configuration_error. run.
    destruct (heartbeat (options w)) as [hb|]; [| eauto].
    destruct Habsent as [Hh | Hd]; [discriminate Hh |]. rewrite Hd. eauto. }
  destruct Hinit as (e & Hinit & He).
  exists e. eexists. split.
  { unfold onModuleInit, try_catch, mbind, M_bind, bind. rewrite Hinit.
    reflexivity. }
  split; [exact He |]. simpl.
  split; [reflexivity |]. split; [exact Hr |]. split; [reflexivity |].
  unfold onModuleDestroy, deregister, the_registration. run. by rewrite Hr.
Qed.

(** What a register attempt never does: it hangs on nothing and leaves
    the options and the registration alone. *)
Lemma internalRegister_frame w :
  (_internalRegister w).1 ≠ Hang
  ∧ options (_internalRegister w).2 = options w
  ∧ registration (_internalRegister w).2 = registration w.
Proof.
  unfold _internalRegister, generateService, getToken, the_registration,
    TtlScheduler_call, call.
  run. destruct (registration w) as [reg|] eqn:Hr; run; [| done].
  rewrite Hr. run.
  destruct (service (options w)) as [so|]; run; [| done].
  destruct (consul (client w)) as [b|]; run; [| done].
  destruct (agent_service_register _ b) as [[e|[]] b']; run; [done |].
  destruct (heartbeat (options w)) as [hb|]; run; [| done].
  destruct (enabled hb); run; [| done].
  destruct (ttlScheduler w) as [s|]; run; [| done].
  by destruct (Js.is_nullish _); run.
Qed.

(** With discovery options and a registration in place the promise of
    [register] is settled when the operation is over. *)
Lemma attempt_settles timeouts :
  ∀ p w d reg,
    discovery (options w) = Some d →
    registration w = Some reg →
    (attempt timeouts p w).1 ≠ Pending.
Proof.
  induction timeouts as [|t later IH]; intros p w d reg Hd Hr;
    rewrite attempt_unfold;
    destruct (internalRegister_frame w) as (Hhang & Ho & Hreg);
    destruct (_internalRegister w) as [[[]|e|] w1]; simpl in *;
    try (by destruct p); try done;
    rewrite Ho, Hd; simpl; rewrite Hreg, Hr;
    destruct (Js.truthy (Js.get d "failFast")); simpl;
    try (by destruct p);
    try (eapply IH; simpl; [by rewrite ?Ho | by rewrite ?Hreg]).
Qed.

(** X9. onModuleInit always returns normally: for every configuration,
    every builder and every backend whose calls settle, it neither
    throws nor stays pending. Whatever init or register raise is caught
    and logged, and after a successful init the promise of register is
    settled by the time the retry operation is over. *)
Theorem onModuleInit_always_returns w :
  ∃ w', onModuleInit build w = (Return tt, w').
Proof.
  unfold onModuleInit, try_catch, mbind, M_bind, bind.
  destruct (init build w) as [[[]|e|] w1] eqn:Hinit.
  - assert (Hready : ∃ d reg, discovery (options w1) = Some d
                              ∧ registration w1 = Some reg).
    { revert Hinit. unfold init, watchAll, consul_watch. run.
      destruct (heartbeat (options w)) as [hb|]; [| discriminate].
      destruct (discovery (options w)) as [d|] eqn:Hd; [| discriminate].
      destruct (build _) as [e|reg]; run; [discriminate |].
      destruct (enabled hb); run;
        destruct (consul (client w)); run; intros [= <-]; simpl; eauto. }
    destruct Hready as (d & reg & Hd & Hr).
    pose proof (attempt_settles retry_timeouts Pending w1 d reg Hd Hr) as Hp.
    unfold register.
    destruct (attempt retry_timeouts Pending w1) as [[| |e] w2]; simpl in *;
      [done | by eexists | by eexists].
  - by eexists.
  - exfalso. revert Hinit. unfold init, watchAll, consul_watch. run.
    destruct (heartbeat (options w)) as [hb|]; [| discriminate].
    destruct (discovery (options w)) as [d|]; [| discriminate].
    destruct (build _) as [e|reg]; run; [discriminate |].
    destruct (enabled hb); run; destruct (consul (client w)); run; discriminate.
Qed.

(** X10. init on a client that holds no consul instance succeeds
    silently: the registration is built and stored and the scheduler
    created when heartbeating is enabled, but watchAll returns at once,
    so no catalog watch exists, no handle is created and nothing is
    recorded. *)
Theorem init_without_connection_starts_no_watch w hb d reg :
  heartbeat (options w) = Some hb →
  discovery (options w) = Some d →
  build (builder_input (options w) d hb) = inr reg →
  consul (client w) = None →
  ∃ w',
    init build w = (Return tt, w')
    ∧ registration w' = Some reg
    ∧ ttlScheduler w'
      = (if enabled hb then Some {| tasks := ∅ |} else ttlScheduler w)
    ∧ watcher w' = watcher w
    ∧ handles w' = handles w
    ∧ trace w' = trace w.
Proof.
  intros Hh Hd Hb Hc. unfold init, watchAll. run.
  rewrite Hh, Hd, Hb. run.
  destruct (enabled hb); run; rewrite Hc; run; eauto 10.
Qed.

(** *** The retry loop, beyond the two claims *)

Lemma attempt_exhausted timeouts :
  ∀ es e p w reg so d b,
    registration w = Some reg →
    service (options w) = Some so →
    discovery (options w) = Some d →
    Js.truthy (Js.get d "failFast") = false →
    consul (client w) = Some b →
    rejects_with es b →
    length es = S (length timeouts) →
    last es = Some e →
    ∃ w' evs,
      attempt timeouts p w = (settle p (Rejected e), w')
      ∧ trace w' = (trace w ++ evs)%list
      ∧ register_attempts evs = length es
      ∧ (∀ id, enrollments id evs = 0)
      ∧ ttlScheduler w' = ttlScheduler w.
Proof.
  induction timeouts as [|t later IH];
    intros es e p w reg so d b Hr Hs Hd Hff Hc Hb Hlen Hlast;
    (destruct es as [|e1 es]; [discriminate Hlen |]);
    destruct (Hb (service_object reg so (token_object (client w))))
      as (b' & Hreg & Hnext);
    rewrite attempt_unfold,
      (internalRegister_rejected w reg so b e1 b' Hr Hs Hc Hreg);
    simpl; rewrite Hd; simpl; rewrite Hff; simpl.
  - destruct es; [| discriminate Hlen]. injection Hlast as <-.
    eexists _, _. split; [reflexivity |]. by repeat split.
  - injection Hlen as Hlen.
    assert (Hlast' : last es = Some e) by (by destruct es).
    destruct (IH es e p
                (after_call b'
                   (attempt_events reg
                      (service_object reg so (token_object (client w))) (inl e1)) w)
                reg so d b')
      as (w' & evs & Hrun & Htrace & Hattempts & Henrolled & Hsched); try done.
    eexists w', _. split; [exact Hrun |].
    split; [rewrite Htrace; simpl; by rewrite <- app_assoc |].
    split; [unfold register_attempts in *; rewrite count_app, Hattempts; done |].
    split; [| exact Hsched].
    intros id. unfold enrollments in *. by rewrite count_app, Henrolled.
Qed.

(** X11. Without fail-fast, a backend that rejects every attempt the
    retry operation allows makes register() reject with the error of the
    last attempt, not of the first; the register call was made eleven
    times, nothing was enrolled and the scheduler is as it was. *)
Theorem register_gives_up_with_the_last_error es e w reg so d b :
  registration w = Some reg →
  service (options w) = Some so →
  discovery (options w) = Some d →
  Js.truthy (Js.get d "failFast") = false →
  consul (client w) = Some b →
  rejects_with es b →
  length es = max_attempts →
  last es = Some e →
  ∃ w' evs,
    register w = (Throw e, w')
    ∧ trace w' = (trace w ++ evs)%list
    ∧ register_attempts evs = 11
    ∧ (∀ id, enrollments id evs = 0)
    ∧ ttlScheduler w' = ttlScheduler w.
Proof.
  intros Hr Hs Hd Hff Hc Hb Hlen Hlast.
  destruct (attempt_exhausted retry_timeouts es e Pending w reg so d b)
    as (w' & evs & Hrun & Htrace & Hattempts & Hrest); try done.
  exists w', evs. unfold register. rewrite Hrun. simpl.
  split; [reflexivity |]. split; [exact Htrace |].
  split; [by rewrite Hattempts, Hlen | exact Hrest].
Qed.

Lemma attempt_failFast_after_rejection N :
  ∀ timeouts p w reg so d hb b,
    p ≠ Pending →
    registration w = Some reg →
    service (options w) = Some so →
    discovery (options w) = Some d →
    Js.truthy (Js.get d "failFast") = true →
    heartbeat (options w) = Some hb →
    consul (client w) = Some b →
    fails_then_accepts N b →
    (N ≤ length timeouts)%nat →
    ∃ w' evs svc,
      attempt timeouts p w = (p, w')
      ∧ trace w' = (trace w ++ evs)%list
      ∧ register_attempts evs = S N
      ∧ AgentRegister svc (inr tt) ∈ evs
      ∧ enrollments (getInstanceId reg) evs
        = if enrolls hb (ttlScheduler w) reg then 1 else 0.
Proof.
  induction N as [|N IH];
    intros timeouts p w reg so d hb b Hp Hr Hs Hd Hff Hh Hc Hb Hlen.
  - destruct (Hb (service_object reg so (token_object (client w)))) as (b' & Hreg).
    rewrite attempt_unfold,
      (internalRegister_accepted w reg so hb b b' Hr Hs Hh Hc Hreg).
    simpl. eexists _, _, _. split; [by destruct p |]. split; [reflexivity |].
    split; [apply register_attempts_accepted |].
    split; [| apply enrollments_accepted].
    unfold accepted_events, attempt_events. simpl.
    apply elem_of_cons. right. apply elem_of_cons. by left.
  - destruct (Hb (service_object reg so (token_object (client w))))
      as (e & b' & Hreg & Hnext).
    rewrite attempt_unfold,
      (internalRegister_rejected w reg so b e b' Hr Hs Hc Hreg).
    simpl. rewrite Hd. simpl. rewrite Hff, Hr. run.
    destruct timeouts as [|t later]; [simpl in Hlen; lia |].
    match goal with
    | |- context [attempt later ?p1 ?w1] =>
      destruct (IH later p1 w1 reg so d hb b')
        as (w' & evs & svc & Hrun & Htrace & Hattempts & Hin & Henrolled);
        try done; [by destruct p | simpl in Hlen; lia |]
    end.
    eexists w', _, svc. split; [rewrite Hrun; by destruct p |].
    split; [rewrite Htrace; simpl; rewrite <- !app_assoc; reflexivity |].
    split; [simpl; unfold register_attempts in *; simpl; by rewrite Hattempts |].
    split; [simpl; do 3 (apply elem_of_cons; right); exact Hin |].
    simpl. unfold enrollments in *. simpl. exact Henrolled.
Qed.

Lemma attempt_failFast_first_rejection N timeouts w reg so d hb b :
  registration w = Some reg →
  service (options w) = Some so →
  discovery (options w) = Some d →
  Js.truthy (Js.get d "failFast") = true →
  heartbeat (options w) = Some hb →
  consul (client w) = Some b →
  fails_then_accepts (S N) b →
  (S N ≤ length timeouts)%nat →
  ∃ e w' evs svc,
    attempt timeouts Pending w = (Rejected e, w')
    ∧ trace w' = (trace w ++ evs)%list
    ∧ register_attempts evs = S (S N)
    ∧ AgentRegister svc (inr tt) ∈ evs
    ∧ enrollments (getInstanceId reg) evs
      = if enrolls hb (ttlScheduler w) reg then 1 else 0.
Proof.
  intros Hr Hs Hd Hff Hh Hc Hb Hlen.
  destruct (Hb (service_object reg so (token_object (client w))))
    as (e & b' & Hreg & Hnext).
  exists e. rewrite attempt_unfold,
    (internalRegister_rejected w reg so b e b' Hr Hs Hc Hreg).
  simpl. rewrite Hd. simpl. rewrite Hff, Hr. run.
  destruct timeouts as [|t later]; [simpl in Hlen; lia |].
  match goal with
  | |- context [attempt later ?p1 ?w1] =>
    destruct (attempt_failFast_after_rejection N later p1 w1 reg so d hb b')
      as (w' & evs & svc & Hrun & Htrace & Hattempts & Hin & Henrolled);
      try done; [simpl in Hlen; lia |]
  end.
  rewrite Hrun. eexists w', _, svc. split; [reflexivity |].
  split; [rewrite Htrace; simpl; rewrite <- !app_assoc; reflexivity |].
  split; [simpl; unfold register_attempts in *; simpl; by rewrite Hattempts |].
  split; [simpl; do 3 (apply elem_of_cons; right); exact Hin |].
  simpl. unfold enrollments in *. simpl. exact Henrolled.
Qed.

(** X12. With fail-fast set, a backend that rejects the first register
    call and accepts a later one makes register() reject, and yet the
    retries go on in the background until the call is accepted: the
    service does get registered, and it is enrolled in the scheduler
    under the usual guard, although the caller was told that
    registration failed. *)
Theorem failFast_register_rejects_yet_registers N w reg so d hb b :
  registration w = Some reg →
  service (options w) = Some so →
  discovery (options w) = Some d →
  Js.truthy (Js.get d "failFast") = true →
  heartbeat (options w) = Some hb →
  consul (client w) = Some b →
  fails_then_accepts (S N) b →
  (S N < max_attempts)%nat →
  ∃ e w' evs svc,
    register w = (Throw e, w')
    ∧ trace w' = (trace w ++ evs)%list
    ∧ register_attempts evs = S (S N)
    ∧ AgentRegister svc (inr tt) ∈ evs
    ∧ enrollments (getInstanceId reg) evs
      = if enrolls hb (ttlScheduler w) reg then 1 else 0.
Proof.
  intros Hr Hs Hd Hff Hh Hc Hb Hlen.
  destruct (attempt_failFast_first_rejection N retry_timeouts w reg so d hb b)
    as (e & w' & evs & svc & Hrun & Hrest); try done.
  { unfold max_attempts in Hlen. lia. }
  exists e, w', evs, svc. split; [| exact Hrest].
  unfold register. by rewrite Hrun.
Qed.

(** *** From startup to shutdown *)

Lemma attempt_until_accepted_world N :
  ∀ timeouts w reg so d hb b,
    registration w = Some reg →
    service (options w) = Some so →
    discovery (options w) = Some d →
    Js.truthy (Js.get d "failFast") = false →
    heartbeat (options w) = Some hb →
    consul (client w) = Some b →
    fails_then_accepts N b →
    (N ≤ length timeouts)%nat →
    ∃ w',
      attempt timeouts Pending w = (Resolved, w')
      ∧ registration w' = Some reg
      ∧ ttlScheduler w'
        = (if enrolls hb (ttlScheduler w) reg
           then TtlScheduler_add (getInstanceId reg) <$> ttlScheduler w
           else ttlScheduler w).
Proof.
  induction N as [|N IH]; intros timeouts w reg so d hb b Hr Hs Hd Hff Hh Hc Hb Hlen.
  - destruct (Hb (service_object reg so (token_object (client w)))) as (b' & Hreg).
    rewrite attempt_unfold,
      (internalRegister_accepted w reg so hb b b' Hr Hs Hh Hc Hreg).
    simpl. eexists. split; [reflexivity |]. split; [exact Hr | reflexivity].
  - destruct (Hb (service_object reg so (token_object (client w))))
      as (e & b' & Hreg & Hnext).
    rewrite attempt_unfold,
      (internalRegister_rejected w reg so b e b' Hr Hs Hc Hreg).
    simpl. rewrite Hd. simpl. rewrite Hff. simpl.
    destruct timeouts as [|t later]; [simpl in Hlen; lia |].
    destruct (IH later (after_call b'
                (attempt_events reg (service_object reg so (token_object (client w)))
                   (inl e)) w) reg so d hb b')
      as (w' & Hrun & Hreg' & Hsched);
      try done; [simpl in Hlen; lia |].
    exists w'. split; [exact Hrun |]. split; [exact Hreg' | exact Hsched].
Qed.

Lemma deregister_scheduler w reg :
  registration w = Some reg →
  ∃ w',
    deregister w = (Return tt, w')
    ∧ ttlScheduler w' = TtlScheduler_remove (getInstanceId reg) <$> ttlScheduler w.
Proof.
  intros Hr.
  unfold deregister, the_registration, getToken, TtlScheduler_call, call.
  run. rewrite Hr. run.
  destruct (ttlScheduler w) as [s|] eqn:Hsched; run;
    (destruct (consul (client w)) as [b|] eqn:Hc; run;
     [destruct (agent_service_deregister _ b) as [[e|[]] b'] eqn:Hb; run |]);
    eexists; (split; [reflexivity |]); simpl; rewrite ?Hr; reflexivity.
Qed.

(** X13. Without fail-fast, and with a backend that accepts the register
    call within the attempts the retry operation allows, so that no
    retry is outstanding once register() has resolved, registration
    followed by deregistration leaves the instance id out of the
    scheduler, whether the registration enrolled it or not and whatever
    the backend answers to the deregister call: the scheduler, if there
    is one, holds the tasks it held before except the instance id.
    Nothing is said here of the fail-fast path, where register() rejects
    while retries are still to come. *)
Theorem register_then_deregister_unenrolls N w reg so d hb b :
  registration w = Some reg →
  service (options w) = Some so →
  discovery (options w) = Some d →
  Js.truthy (Js.get d "failFast") = false →
  heartbeat (options w) = Some hb →
  consul (client w) = Some b →
  fails_then_accepts N b →
  (N < max_attempts)%nat →
  ∃ w1 w2,
    register w = (Return tt, w1)
    ∧ deregister w1 = (Return tt, w2)
    ∧ ttlScheduler w2 = TtlScheduler_remove (getInstanceId reg) <$> ttlScheduler w
    ∧ (∀ s, ttlScheduler w2 = Some s → getInstanceId reg ∉ tasks s).
Proof.
  intros Hr Hs Hd Hff Hh Hc Hb Hlen.
  destruct (attempt_until_accepted_world N retry_timeouts w reg so d hb b)
    as (w1 & Hrun & Hr1 & Hsched1); try done.
  { unfold max_attempts in Hlen. lia. }
  destruct (deregister_scheduler w1 reg Hr1) as (w2 & Hrun2 & Hsched2).
  assert (Hsched : ttlScheduler w2
                   = TtlScheduler_remove (getInstanceId reg) <$> ttlScheduler w).
  { rewrite Hsched2, Hsched1.
    destruct (enrolls hb (ttlScheduler w) reg); [| reflexivity].
    destruct (ttlScheduler w) as [s|]; [| reflexivity].
    simpl. unfold TtlScheduler_remove, TtlScheduler_add. simpl. do 2 f_equal.
    apply set_eq. intros x.
    rewrite !elem_of_difference, elem_of_union. tauto. }
  exists w1, w2. split; [unfold register; by rewrite Hrun |].
  split; [exact Hrun2 |]. split; [exact Hsched |].
  intros s. rewrite Hsched. destruct (ttlScheduler w) as [s0|]; [| discriminate].
  intros [= <-]. simpl. rewrite elem_of_difference, elem_of_singleton. tauto.
Qed.

(** *** Watches, beyond the rebuild *)

(** X14. watch(name) calls end() on the handle it finds under the name
    and stores a new, different handle in its place, but it leaves the
    'change' listener of the old handle attached: the registry itself
    does nothing to silence the watch it replaced. Should the old handle
    emit 'change' again, its listener replaces the store entry of the
    name, exactly as the listener of the new handle does. *)
Theorem replaced_watch_keeps_its_listener name h nodes w b wt :
  consul (client w) = Some b →
  props (watchers w) !! name = Some h →
  handles w !! h = Some wt →
  method wt = HealthService name →
  ∃ w' h',
    watch name w = (Return tt, w')
    ∧ WatchEnded h ∈ trace w'
    ∧ ended <$> handles w' !! h = Some true
    ∧ props (watchers w') !! name = Some h'
    ∧ h' ≠ h
    ∧ ended <$> handles w' !! h' = Some false
    ∧ ∀ emitting, emitting = h ∨ emitting = h' →
        ∃ w'',
          change_service consulServiceToServiceInstance emitting nodes w'
          = (Return tt, w'')
          ∧ serviceStore w''
            = <[name := consulServiceToServiceInstance nodes]> (serviceStore w').
Proof.
  intros Hc Hp Hwt Hm.
  destruct (watch_ends_the_handle_it_replaces name h w b Hc Hp)
    as (w' & Hrun & Htrace & Hhandles & Hp').
  pose proof (lookup_lt_Some _ _ _ Hwt) as Hlt.
  assert (Hold : handles w' !! h = Some (end_handle wt)).
  { rewrite Hhandles, lookup_app_l by (by rewrite length_alter).
    by rewrite list_lookup_alter_eq, Hwt. }
  assert (Hnew : handles w' !! length (handles w)
                 = Some (mkWatch (HealthService name)
                           (watch_options_for name (token_object (client w))) false)).
  { rewrite Hhandles, <- (length_alter end_handle (handles w) h).
    by apply list_lookup_middle. }
  exists w', (length (handles w)). split; [exact Hrun |].
  split; [rewrite Htrace, elem_of_app; right; apply elem_of_cons; by left |].
  split; [by rewrite Hold |]. split; [exact Hp' |]. split; [lia |].
  split; [by rewrite Hnew |].
  intros emitting [-> | ->]; unfold change_service, on_service_change, setServices;
    run; [rewrite Hold | rewrite Hnew]; simpl; rewrite ?Hm; run;
    (eexists; split; reflexivity).
Qed.

(** X15. A service whose name is a member every Map object inherits
    gets its store entry and no watch to keep it fresh: the callback of
    the rebuild writes the entry, and watch then throws a TypeError, so
    that the callback's promise rejects. The watcher object is left as
    it was. For the name size the watch was already created when the
    assignment throws: it runs with nothing referring to it. *)
Theorem inherited_name_is_stored_but_not_watched name nodes w b :
  consul (client w) = Some b →
  props (watchers w) !! name = None →
  inherited name = true →
  ∃ msg w',
    store_and_watch consulServiceToServiceInstance name (inr nodes) w
    = (Return (inl (Js.TypeError msg)), w')
    ∧ serviceStore w'
      = <[name := consulServiceToServiceInstance nodes]> (serviceStore w)
    ∧ watchers w' = watchers w
    ∧ handles w'
      = (if String.eqb name "size"
         then handles w
                ++ [mkWatch (HealthService name)
                      (watch_options_for name (token_object (client w))) false]
         else handles w)%list.
Proof.
  intros Hc Hp Hin.
  unfold store_and_watch, settled, setServices, watch, getToken, consul_watch,
    assign_member, Watch_end, member.
  run. rewrite Hc. run. rewrite Hp.
  destruct (String.eqb name "size") eqn:Hsize; run.
  - rewrite Hp. run. eexists _, _. split; [reflexivity |]. done.
  - rewrite Hin. run. eexists _, _. split; [reflexivity |]. done.
Qed.

(** *** What a rebuild leaves in the store *)

Lemma Promise_all_world outcomes w : (Promise_all outcomes w).2 = w.
Proof. induction outcomes as [|[e|u] outs IH]; simpl; done. Qed.

Lemma mapM_returns {A C} (f : A → M C) (P : World → World → Prop) (l : list A) :
  (∀ w, P w w) →
  (∀ w1 w2 w3, P w1 w2 → P w2 w3 → P w1 w3) →
  (∀ x w, x ∈ l → ∃ y w', f x w = (Return y, w') ∧ P w w') →
  ∀ w, ∃ ys w', mapM f l w = (Return ys, w') ∧ P w w'.
Proof.
  intros Hrefl Htrans. induction l as [|x l IH]; intros Hf w.
  - exists [], w. split; [reflexivity | apply Hrefl].
  - destruct (Hf x w) as (y & w1 & Hx & HP1); [by left |].
    destruct (IH (λ x' w' Hin, Hf x' w' (list_elem_of_further _ _ _ Hin)) w1)
      as (ys & w2 & Hl & HP2).
    exists (y :: ys), w2. split; [by rewrite mapM_cons, Hx, Hl | by eapply Htrans].
Qed.

Lemma store_kept_refl names w : store_kept names w w.
Proof. by intros name. Qed.

Lemma store_kept_trans names w1 w2 w3 :
  store_kept names w1 w2 → store_kept names w2 w3 → store_kept names w1 w3.
Proof.
  intros H12 H23 name. destruct (H12 name) as [Hs12 He12], (H23 name) as [Hs23 He23].
  split; [auto |]. intros Hnot. by rewrite He23, He12.
Qed.

Lemma store_kept_insert names name v w w' :
  name ∈ names →
  serviceStore w' = <[name := v]> (serviceStore w) →
  store_kept names w w'.
Proof.
  intros Hin Hs name'. rewrite Hs. split.
  - intros Hsome. destruct (decide (name = name')) as [<- | Hne].
    + rewrite lookup_insert_eq. by eexists.
    + by rewrite lookup_insert_ne.
  - intros Hnot. apply lookup_insert_ne. by intros ->.
Qed.

Lemma store_kept_same names w w' :
  serviceStore w' = serviceStore w → store_kept names w w'.
Proof. intros Hs name. by rewrite Hs. Qed.

Lemma query_service_returns name w :
  ∃ answer w', query_service name w = (Return answer, w')
    ∧ serviceStore w' = serviceStore w.
Proof.
  unfold query_service, settled, call. run.
  destruct (consul (client w)) as [b|]; run; [| eauto].
  destruct (health_service name b) as [[e|nodes] b']; run; eauto.
Qed.

Lemma watch_store name w : serviceStore (watch name w).2 = serviceStore w.
Proof.
  unfold watch, getToken, consul_watch, assign_member, Watch_end. run.
  destruct (consul (client w)) as [b|]; run; [| done].
  destruct (member (watchers w) name) eqn:Hm; run; rewrite ?Hm; run; done.
Qed.

Lemma watch_settles name w : (watch name w).1 ≠ Hang.
Proof.
  unfold watch, getToken, consul_watch, assign_member, Watch_end. run.
  destruct (consul (client w)) as [b|]; run; [| done].
  destruct (member (watchers w) name) eqn:Hm; run; rewrite ?Hm; run; done.
Qed.

Lemma store_and_watch_returns names name answer w :
  name ∈ names →
  ∃ outcome w',
    store_and_watch consulServiceToServiceInstance name answer w = (Return outcome, w')
    ∧ store_kept names w w'.
Proof.
  intros Hin. unfold store_and_watch, settled, setServices.
  destruct answer as [e|nodes]; run.
  - eexists _, _. split; [reflexivity | apply store_kept_refl].
  - match goal with
    | |- context [watch name ?w1] =>
      pose proof (watch_store name w1) as Hstore;
      pose proof (watch_settles name w1) as Hsettles;
      destruct (watch name w1) as [[[]|e|] w2]
    end; simpl in *; [| | done];
      (eexists _, _; split; [reflexivity |];
       by eapply store_kept_insert).
Qed.

(** X16. A rebuild removes nothing from the store, however it comes
    out: every name that had an entry before a catalog change has one
    after it, and the entry of a name that is not in the new catalog,
    a service that went away, is the one it had. *)
Theorem rebuild_removes_no_store_entry (data : Js.Obj) w name :
  let svcs := filter (λ value, value ≠ "consul") (Js.keys data) in
  let w' := (on_catalog_change consulServiceToServiceInstance data w).2 in
  (is_Some (serviceStore w !! name) → is_Some (serviceStore w' !! name))
  ∧ (name ∉ svcs → serviceStore w' !! name = serviceStore w !! name).
Proof.
  intros svcs w'. revert name. change (store_kept svcs w w'). subst w'.
  unfold on_catalog_change. fold svcs.
  destruct (forEach_end_entries (entries (watchers w)) w)
    as (wA & evsA & HrunA & _ & _ & HsA & _).
  destruct (mapM_returns query_service (λ w1 w2, serviceStore w2 = serviceStore w1)
              svcs) with (w := set_watchers new_Map wA)
    as (answers & wC & HrunC & HsC);
    [done | intros w1 w2 w3 H12 H23; by rewrite H23 |
     intros x w0 _; apply query_service_returns |].
  destruct (mapM_returns
              (λ '(service, answer),
                 store_and_watch consulServiceToServiceInstance service answer)
              (store_kept svcs) (zip svcs answers)) with (w := wC)
    as (outcomes & wD & HrunD & HsD);
    [apply store_kept_refl | apply store_kept_trans | |].
  { intros [service answer] w0 Hin. apply store_and_watch_returns.
    by apply elem_of_zip_l in Hin. }
  rewrite buildServiceStore_unfold, HrunA, HrunC, HrunD, Promise_all_world.
  eapply store_kept_trans; [| exact HsD].
  apply store_kept_same. rewrite HsC. simpl. exact HsA.
Qed.

(** *** Startup as a whole *)

(** X18. When the registration builder throws, the startup hook logs
    that error and does nothing else: no scheduler is created, no watch
    is started and the backend is not called. *)
Theorem startup_with_failing_builder_only_logs w hb d e :
  heartbeat (options w) = Some hb →
  discovery (options w) = Some d →
  build (builder_input (options w) d hb) = inl e →
  onModuleInit build w
  = (Return tt, set_trace (trace w ++ [Logged ERROR (Thrown e)])%list w).
Proof.
  intros Hh Hd Hbuild. unfold onModuleInit, init. run.
  rewrite Hh, Hd, Hbuild. reflexivity.
Qed.

(** X19. A startup that goes through: on a connected registry whose
    backend rejects the first N register calls and then accepts, without
    fail-fast, the hook returns; the catalog watch is created first,
    before any register call, then the register call is made N + 1
    times. Since init creates the scheduler whenever heartbeating is
    enabled, the instance is enrolled exactly when heartbeating is
    enabled and the registered check carries a ttl. *)
Theorem startup_watches_the_catalog_then_registers N w hb d so reg b :
  heartbeat (options w) = Some hb →
  discovery (options w) = Some d →
  service (options w) = Some so →
  build (builder_input (options w) d hb) = inr reg →
  Js.truthy (Js.get d "failFast") = false →
  consul (client w) = Some b →
  fails_then_accepts N b →
  (N < max_attempts)%nat →
  ∃ w' evs,
    onModuleInit build w = (Return tt, w')
    ∧ trace w'
      = (trace w ++ WatchCreated (length (handles w)) CatalogServiceList :: evs)%list
    ∧ register_attempts evs = S N
    ∧ enrollments (getInstanceId reg) evs
      = (if enabled hb && negb (Js.is_nullish (registration_ttl reg)) then 1 else 0).
Proof.
  intros Hh Hd Hs Hbuild Hff Hc Hb Hlen.
  destruct (init_connected w hb d reg b Hh Hd Hbuild Hc)
    as (w1 & Hinit & Ho & Hr & Hsched & Hcl & Ht1).
  destruct (attempt_until_accepted N retry_timeouts w1 reg so d hb b)
    as (w' & evs & Hrun & Ht & Hattempts & Henrolled);
    rewrite ?Ho, ?Hcl; try done.
  { unfold max_attempts in Hlen. lia. }
  exists w', evs.
  split.
  { unfold onModuleInit, try_catch, mbind, M_bind, bind, register.
    by rewrite Hinit, Hrun. }
  split; [by rewrite Ht, Ht1, <- app_assoc |].
  split; [exact Hattempts |].
  rewrite Henrolled, Hsched. unfold enrolls.
  destruct (enabled hb); [| reflexivity]. simpl.
  by destruct (Js.is_nullish (registration_ttl reg)).
Qed.

(** X20. The ACL token goes with the per-service watches and not with
    the catalog watch: with a non-empty token configured, the options of
    the watch that watch(name) creates carry it, and the options of the
    watch that watchAll creates have no token property. *)
Theorem token_goes_with_service_watches_only name t w b :
  consul (client w) = Some b →
  aclToken (client w) = Some t →
  t ≠ "" →
  ordinary name →
  (∃ w' wt,
     watch name w = (Return tt, w')
     ∧ handles w' !! length (handles w) = Some wt
     ∧ method wt = HealthService name
     ∧ watch_options wt !! "token" = Some (Js.Str t))
  ∧ (∃ w' wt,
       watchAll w = (Return tt, w')
       ∧ handles w' !! length (handles w) = Some wt
       ∧ method wt = CatalogServiceList
       ∧ watch_options wt !! "token" = None).
Proof.
  intros Hc Ht Hne Hord.
  assert (Htoken : token_object (client w) !! "token" = Some (Js.Str t)).
  { unfold token_object. rewrite Ht. simpl.
    apply String.eqb_neq in Hne. rewrite Hne. apply lookup_singleton_eq. }
  split.
  - unfold watch, getToken, consul_watch, assign_member, Watch_end.
    run. rewrite Hc. run.
    destruct (props (watchers w) !! name) as [h|] eqn:Hp.
    + unfold member. rewrite Hp. run. rewrite Hp. run.
      eexists _, _. split; [reflexivity |]. simpl.
      split; [rewrite <- (length_alter end_handle (handles w) h);
              by apply list_lookup_middle |].
      split; [reflexivity |]. simpl.
      by apply JsFacts.spread_lookup_override.
    + rewrite (member_none _ _ Hp), Hord. run.
      rewrite (member_none _ _ Hp), Hord. run.
      eexists _, _. split; [reflexivity |]. simpl.
      split; [by apply list_lookup_middle |].
      split; [reflexivity |]. simpl.
      by apply JsFacts.spread_lookup_override.
  - unfold watchAll, consul_watch. run. rewrite Hc. run.
    eexists _, _. split; [reflexivity |]. simpl.
    split; [by apply list_lookup_middle |]. done.
Qed.

(** *** A rebuild in whatever order its events come *)

Lemma ordinary_inherited name : ordinary name ↔ inherited name = false.
Proof.
  unfold ordinary, member, new_Map. simpl. rewrite lookup_empty.
  destruct (String.eqb name "size") eqn:Hsize.
  - apply String.eqb_eq in Hsize as ->. split; [discriminate | by vm_compute].
  - destruct (inherited name); split; by try discriminate.
Qed.

Lemma in_order_is_one_arrival (data : Js.Obj) :
  on_catalog_change consulServiceToServiceInstance data
  = on_catalog_change_listed consulServiceToServiceInstance (λ waiting, waiting)
      (Js.keys data).
Proof. reflexivity. Qed.

Lemma length_health_answers svcs :
  ∀ b : B, length (health_answers svcs b).1 = length svcs.
Proof.
  induction svcs as [|name svcs IH]; intros b; [reflexivity |].
  simpl. destruct (health_service name b) as [r b1].
  specialize (IH b1). destruct (health_answers svcs b1) as [rs b2].
  simpl in *. by rewrite IH.
Qed.

Lemma health_answers_cons name svcs (b : B) :
  health_answers (name :: svcs) b
  = (let '(r, b1) := health_service name b in
     let '(rs, b2) := health_answers svcs b1 in
     (r :: rs, b2)).
Proof. reflexivity. Qed.

Lemma token_object_aclToken (c c' : ConsulClient B) :
  aclToken c' = aclToken c → token_object c' = token_object c.
Proof. unfold token_object. by intros ->. Qed.

(** The health queries of a rebuild: whatever the backend answers, they
    all go out, and nothing but the client is touched. *)
Lemma query_services_run svcs :
  ∀ w b,
    consul (client w) = Some b →
    ∃ w' evs,
      mapM query_service svcs w = (Return (health_answers svcs b).1, w')
      ∧ consul (client w') = Some (health_answers svcs b).2
      ∧ aclToken (client w') = aclToken (client w)
      ∧ watchers w' = watchers w
      ∧ handles w' = handles w
      ∧ serviceStore w' = serviceStore w
      ∧ trace w' = (trace w ++ evs)%list
      ∧ created_for evs = []
      ∧ stored_for evs = [].
Proof.
  induction svcs as [|name svcs IH]; intros w b Hc.
  - exists w, []. simpl. rewrite app_nil_r. by repeat split.
  - rewrite health_answers_cons.
    destruct (health_service name b) as [r b1] eqn:Hq.
    assert (Hstep : query_service name w
                    = (Return r, after_call b1 [HealthServiceQuery name] w)).
    { unfold query_service, settled.
      rewrite (call_run _ _ w b r b1 Hc Hq). by destruct r. }
    destruct (IH (after_call b1 [HealthServiceQuery name] w) b1 eq_refl) as
      (w' & evs & Hrun & Hc' & Htok & Hw & Hh & Hs & Ht & Hcr & Hst).
    destruct (health_answers svcs b1) as [rs b2] eqn:Hrest. cbn [fst snd] in *.
    exists w', (HealthServiceQuery name :: evs).
    split; [by rewrite mapM_cons, Hstep, Hrun |].
    split; [exact Hc' |]. split; [exact Htok |]. split; [exact Hw |].
    split; [exact Hh |]. split; [exact Hs |].
    split; [rewrite Ht; simpl; by rewrite <- app_assoc |]. done.
Qed.

(** One callback resuming, for a name the watcher object has no
    property of. *)
Lemma callback_resumed name answer w b :
  consul (client w) = Some b →
  props (watchers w) !! name = None →
  ∃ w' evs new,
    store_and_watch consulServiceToServiceInstance name answer w
    = (Return (callback_outcome (name, answer)), w')
    ∧ client w' = client w
    ∧ trace w' = (trace w ++ evs)%list
    ∧ handles w' = (handles w ++ new)%list
    ∧ stored_for evs = (if answered (name, answer) then [name] else [])
    ∧ created_for evs = (if creates_watch (name, answer) then [name] else [])
    ∧ serviceStore w'
      = match answer with
        | inr nodes => <[name := consulServiceToServiceInstance nodes]> (serviceStore w)
        | inl _ => serviceStore w
        end
    ∧ props (watchers w')
      = (if answered (name, answer) && negb (inherited name)
         then <[name := length (handles w)]> (props (watchers w))
         else props (watchers w))
    ∧ (answered (name, answer) && negb (inherited name) = true →
       new = [mkWatch (HealthService name)
                (watch_options_for name (token_object (client w))) false]).
Proof.
  intros Hc Hp. unfold callback_outcome, creates_watch, answered. simpl.
  destruct answer as [e|nodes].
  { exists w, [], []. simpl. rewrite !app_nil_r. by repeat split. }
  unfold store_and_watch, settled, setServices, watch, getToken, consul_watch,
    assign_member, Watch_end, member.
  run. rewrite Hc. run. rewrite Hp.
  destruct (String.eqb name "size") eqn:Hsize.
  - assert (Hin : inherited name = true)
      by (apply String.eqb_eq in Hsize as ->; by vm_compute).
    rewrite Hin. run. rewrite Hp. run.
    eexists _, _, _. split; [reflexivity |]. simpl.
    split; [reflexivity |]. split; [by rewrite <- !app_assoc |].
    split; [reflexivity |]. by repeat split.
  - destruct (inherited name) eqn:Hin; run.
    + eexists _, [SetServices name], []. split; [reflexivity |]. simpl.
      rewrite app_nil_r. by repeat split.
    + rewrite Hp. run.
      eexists _, _, _. split; [reflexivity |]. simpl.
      split; [reflexivity |]. split; [by rewrite <- !app_assoc |].
      split; [reflexivity |]. by repeat split.
Qed.

(** The callbacks of a rebuild resuming one after the other, in any
    order, for names the watcher object has no property of and no two of
    them equal. *)
Lemma callbacks_resumed (l : list Waiting) :
  ∀ w b,
    consul (client w) = Some b →
    NoDup l.*1 →
    (∀ name, name ∈ l.*1 → props (watchers w) !! name = None) →
    ∃ w' evs new,
      mapM (λ '(service, answer),
              store_and_watch consulServiceToServiceInstance service answer) l w
      = (Return (callback_outcome <$> l), w')
      ∧ trace w' = (trace w ++ evs)%list
      ∧ handles w' = (handles w ++ new)%list
      ∧ stored_for evs = (filter (λ p, answered p = true) l).*1
      ∧ created_for evs = (filter (λ p, creates_watch p = true) l).*1
      ∧ (∀ name, name ∉ l.*1 →
           serviceStore w' !! name = serviceStore w !! name
           ∧ props (watchers w') !! name = props (watchers w) !! name)
      ∧ (∀ name nodes, (name, inr nodes) ∈ l →
           serviceStore w' !! name = Some (consulServiceToServiceInstance nodes)
           ∧ (inherited name = false →
              ∃ h, props (watchers w') !! name = Some h
                   ∧ (length (handles w) ≤ h)%nat
                   ∧ handles w' !! h
                     = Some (mkWatch (HealthService name)
                               (watch_options_for name (token_object (client w)))
                               false)))
      ∧ (∀ name e, (name, inl e) ∈ l →
           serviceStore w' !! name = serviceStore w !! name
           ∧ props (watchers w') !! name = None).
Proof.
  induction l as [|[name answer] l IH]; intros w b Hc Hnodup Hnew.
  - exists w, [], []. simpl. rewrite !app_nil_r.
    split; [reflexivity |]. split; [reflexivity |]. split; [reflexivity |].
    split; [reflexivity |]. split; [reflexivity |]. split; [done |].
    split; intros ? ? Hin; by apply elem_of_nil in Hin.
  - simpl in Hnodup. apply NoDup_cons in Hnodup as [Hfresh Hnodup].
    destruct (callback_resumed name answer w b Hc) as
      (w1 & evs1 & new1 & Hstep & Hc1 & Ht1 & Hh1 & Hst1 & Hcr1 & Hs1 & Hp1 & Hnew1);
      [apply Hnew; by left |].
    assert (Hkeep1 : ∀ name', name' ≠ name →
              serviceStore w1 !! name' = serviceStore w !! name'
              ∧ props (watchers w1) !! name' = props (watchers w) !! name').
    { intros name' Hne. rewrite Hs1, Hp1. split.
      - destruct answer; [done | by apply lookup_insert_ne].
      - destruct (answered (name, answer) && negb (inherited name));
          [by apply lookup_insert_ne | done]. }
    destruct (IH w1 b) as
      (w' & evs & new & Hrun & Ht & Hh & Hst & Hcr & Hkeep & Hans & Hrej);
      [by rewrite Hc1 | exact Hnodup | |].
    { intros name' Hin. rewrite (proj2 (Hkeep1 name' ltac:(by intros ->))).
      apply Hnew. by right. }
    exists w', (evs1 ++ evs)%list, (new1 ++ new)%list.
    split; [rewrite mapM_cons; cbv beta iota; by rewrite Hstep, Hrun |].
    split; [by rewrite Ht, Ht1, <- app_assoc |].
    split; [by rewrite Hh, Hh1, <- app_assoc |].
    split.
    { unfold stored_for in *. rewrite omap_app, Hst1, Hst, filter_cons.
      destruct (decide (answered (name, answer) = true)) as [-> | Hno]; [done |].
      by destruct (answered (name, answer)). }
    split.
    { unfold created_for in *. rewrite omap_app, Hcr1, Hcr, filter_cons.
      destruct (decide (creates_watch (name, answer) = true)) as [-> | Hno]; [done |].
      by destruct (creates_watch (name, answer)). }
    split.
    { intros name' Hnot. simpl in Hnot. apply not_elem_of_cons in Hnot as [Hne Hnot].
      destruct (Hkeep name' Hnot) as [Hs Hp], (Hkeep1 name' Hne) as [Hs' Hp'].
      by rewrite Hs, Hp. }
    split.
    { intros name' nodes [[= -> <-] | Hin]%elem_of_cons.
      - destruct (Hkeep name Hfresh) as [Hs Hp]. rewrite Hs, Hp, Hs1, Hp1.
        split; [apply lookup_insert_eq |].
        intros Hin. unfold answered. simpl. rewrite Hin. simpl.
        exists (length (handles w)). split; [apply lookup_insert_eq |].
        split; [done |].
        rewrite Hh, Hh1, Hnew1 by (unfold answered; simpl; by rewrite Hin).
        rewrite <- app_assoc. by apply list_lookup_middle.
      - destruct (Hans name' nodes Hin) as [Hs Hw]. split; [exact Hs |].
        intros Hord. destruct (Hw Hord) as (h & Hp & Hle & Hwt).
        exists h. split; [exact Hp |].
        split; [rewrite Hh1, length_app in Hle; lia |].
        by rewrite Hwt, Hc1. }
    intros name' e [[= -> <-] | Hin]%elem_of_cons.
    + destruct (Hkeep name Hfresh) as [Hs Hp]. rewrite Hs, Hp, Hs1, Hp1.
      split; [done |]. simpl. apply Hnew. by left.
    + destruct (Hrej name' e Hin) as [Hs Hp]. split; [| exact Hp].
      rewrite Hs. apply Hkeep1. intros ->. apply Hfresh.
      apply list_elem_of_fmap. by exists (name, inl e).
Qed.

Lemma forEach_end_length (es : list (string * nat)) :
  ∀ w w', (forEach (λ entry, Watch_end entry.2) es w).2 = w' →
          length (handles w') = length (handles w)
          ∧ aclToken (client w') = aclToken (client w).
Proof.
  induction es as [|[name h] es IH]; intros w w' <-; [done |].
  destruct (IH (set_trace (trace w ++ [WatchEnded h])
                  (set_handles (alter end_handle h (handles w)) w)) _ eq_refl)
    as [Hlen Htok].
  split; [| exact Htok].
  etransitivity; [exact Hlen |]. simpl. apply length_alter.
Qed.

Lemma Promise_all_resolved outcomes w :
  Forall (λ o, o = inr tt) outcomes → Promise_all outcomes w = (Return tt, w).
Proof. induction 1 as [|o outs -> _ IH]; [reflexivity | exact IH]. Qed.

Lemma watch_options_for_lookup name (c : ConsulClient B) :
  watch_options_for name (token_object c) !! "service" = Some (Js.Str name)
  ∧ watch_options_for name (token_object c) !! "timeout" = Some (Js.Num WATCH_TIMEOUT)
  ∧ watch_options_for name (token_object c) !! "wait" = Some (Js.Str "5m").
Proof.
  unfold watch_options_for.
  rewrite !JsFacts.spread_lookup_keep by (by apply token_object_only_token).
  split; [| split].
  - rewrite lookup_insert_ne by done. apply lookup_insert_eq.
  - apply lookup_insert_eq.
  - do 2 (rewrite lookup_insert_ne by done). apply lookup_singleton_eq.
Qed.

(** One run of the catalog listener, in whatever order the keys are
    listed and the answers arrive: what it writes, what it creates and
    what it leaves alone. The promise of the rebuild is the one
    [Promise.all] makes of the callbacks' promises. *)
Lemma rebuild_in_any_order
    (arrival : list Waiting → list Waiting) (listed : list string)
    (data : Js.Obj) w b :
  let svcs := filter (λ value, value ≠ "consul") listed in
  let waiting := zip svcs (health_answers svcs b).1 in
  listed ≡ₚ Js.keys data →
  (∀ l, arrival l ≡ₚ l) →
  consul (client w) = Some b →
  ∃ w' evs,
    on_catalog_change_listed consulServiceToServiceInstance arrival listed w
    = ((Promise_all (callback_outcome <$> arrival waiting) w').1, w')
    ∧ trace w' = (trace w ++ evs)%list
    ∧ (∀ name, name ∈ svcs ↔ is_Some (data !! name) ∧ name ≠ "consul")
    ∧ waiting.*1 = svcs
    ∧ stored_for evs ≡ₚ (filter (λ p, answered p = true) waiting).*1
    ∧ created_for evs ≡ₚ (filter (λ p, creates_watch p = true) waiting).*1
    ∧ (∀ name nodes, (name, inr nodes) ∈ waiting →
         serviceStore w' !! name = Some (consulServiceToServiceInstance nodes)
         ∧ (ordinary name →
            ∃ h wt,
              props (watchers w') !! name = Some h
              ∧ (length (handles w) ≤ h)%nat
              ∧ handles w' !! h = Some wt
              ∧ method wt = HealthService name
              ∧ ended wt = false
              ∧ watch_options wt !! "service" = Some (Js.Str name)
              ∧ watch_options wt !! "timeout" = Some (Js.Num WATCH_TIMEOUT)
              ∧ watch_options wt !! "wait" = Some (Js.Str "5m")))
    ∧ (∀ name e, (name, inl e) ∈ waiting →
         serviceStore w' !! name = serviceStore w !! name
         ∧ props (watchers w') !! name = None)
    ∧ (∀ name, name ∉ svcs →
         serviceStore w' !! name = serviceStore w !! name
         ∧ props (watchers w') !! name = None).
Proof.
  intros svcs waiting Hlisted Harr Hc.
  assert (Hnames : waiting.*1 = svcs).
  { apply fst_zip. by rewrite length_health_answers. }
  assert (Hnodup : NoDup svcs).
  { apply NoDup_filter. rewrite Hlisted. apply NoDup_fst_map_to_list. }
  destruct (forEach_end_entries (entries (watchers w)) w)
    as (wA & evsA & HrunA & HcA & _ & HsA & HtA & _ & HcrA & HstA).
  destruct (forEach_end_length (entries (watchers w)) w wA) as [HlenA _];
    [by rewrite HrunA |].
  set (wB := set_watchers new_Map wA).
  destruct (query_services_run svcs wB b) as
    (wC & evsC & HrunC & HcC & HtokC & HwC & HhC & HsC & HtC & HcrC & HstC);
    [simpl; by rewrite HcA |].
  destruct (callbacks_resumed (arrival waiting) wC (health_answers svcs b).2 HcC) as
    (wD & evsD & new & HrunD & HtD & HhD & HstD & HcrD & Hkeep & Hans & Hrej).
  { by rewrite (Harr waiting), Hnames. }
  { intros name _. rewrite HwC. simpl. apply lookup_empty. }
  exists wD, (evsA ++ evsC ++ evsD)%list.
  split.
  { unfold on_catalog_change_listed. fold svcs.
    change (buildServiceStore_arriving consulServiceToServiceInstance arrival svcs w)
      with (match forEach (λ entry, Watch_end entry.2) (entries (watchers w)) w with
            | (Return _, wA) =>
              match mapM query_service svcs (set_watchers new_Map wA) with
              | (Return answers, wC) =>
                match mapM (λ '(service, answer),
                              store_and_watch consulServiceToServiceInstance
                                service answer)
                           (arrival (zip svcs answers)) wC with
                | (Return outcomes, wD) => Promise_all outcomes wD
                | (Throw e, wD) => (Throw e, wD)
                | (Hang, wD) => (Hang, wD)
                end
              | (Throw e, wC) => (Throw e, wC)
              | (Hang, wC) => (Hang, wC)
              end
            | (Throw e, wA) => (Throw e, wA)
            | (Hang, wA) => (Hang, wA)
            end).
    rewrite HrunA. change (set_watchers new_Map wA) with wB.
    rewrite HrunC. fold waiting. rewrite HrunD.
    rewrite <- (Promise_all_world (callback_outcome <$> arrival waiting) wD) at 3.
    by destruct (Promise_all (callback_outcome <$> arrival waiting) wD). }
  split; [rewrite HtD, HtC; simpl; by rewrite HtA, <- !app_assoc |].
  split.
  { intros name. unfold svcs.
    rewrite list_elem_of_filter, Hlisted, JsFacts.elem_of_keys. tauto. }
  split; [exact Hnames |].
  unfold created_for, stored_for in *.
  split; [rewrite !omap_app, HstA, HstC, HstD; simpl; by rewrite (Harr waiting) |].
  split; [rewrite !omap_app, HcrA, HcrC, HcrD; simpl; by rewrite (Harr waiting) |].
  assert (Hstore : serviceStore wC = serviceStore w) by (by rewrite HsC, <- HsA).
  assert (Hprops : ∀ name, props (watchers wC) !! name = None).
  { intros name. rewrite HwC. simpl. apply lookup_empty. }
  split.
  { intros name nodes Hin. rewrite <- (Harr waiting) in Hin.
    destruct (Hans name nodes Hin) as [Hs Hw]. split; [exact Hs |].
    intros Hord%ordinary_inherited.
    destruct (Hw Hord) as (h & Hp & Hle & Hwt).
    destruct (watch_options_for_lookup name (client wC)) as (Ho1 & Ho2 & Ho3).
    eexists h, _. split; [exact Hp |].
    split; [rewrite HhC in Hle; simpl in Hle; by rewrite HlenA in Hle |].
    split; [exact Hwt |]. by repeat split. }
  split.
  { intros name e Hin. rewrite <- (Harr waiting) in Hin.
    destruct (Hrej name e Hin) as [Hs Hp]. by rewrite Hs, Hstore. }
  intros name Hnot. destruct (Hkeep name) as [Hs Hp].
  - by rewrite (Harr waiting), Hnames.
  - by rewrite Hs, Hp, Hstore.
Qed.

(** C8, as the code has it. On a catalog change event the handler takes
    the keys of the event's data other than 'consul', in whatever order
    the engine lists them, and queries the backend for each. When the
    answers arrive, in whatever order, every name of the set whose query
    was answered gets its store entry from that answer and, unless the
    name is one every Map object inherits, a new running per-service
    watch of its own, polling that name with the timeout and the wait
    hint, which becomes the property of the name in the new watcher
    object. A name whose query was rejected gets neither. Nothing is
    written or created for a name outside the set, and nothing is
    removed: the store entry of a name outside the set is the one it
    had. What becomes of the watches of earlier rebuilds is not part of
    the statement. *)
Theorem catalog_change_rebuilds_and_removes_nothing
    (arrival : list Waiting → list Waiting) (listed : list string)
    (data : Js.Obj) w b :
  let svcs := filter (λ value, value ≠ "consul") listed in
  let waiting := zip svcs (health_answers svcs b).1 in
  listed ≡ₚ Js.keys data →
  (∀ l, arrival l ≡ₚ l) →
  consul (client w) = Some b →
  ∃ out w' evs,
    on_catalog_change_listed consulServiceToServiceInstance arrival listed w
    = (out, w')
    ∧ trace w' = (trace w ++ evs)%list
    ∧ (∀ name, name ∈ svcs ↔ is_Some (data !! name) ∧ name ≠ "consul")
    ∧ waiting.*1 = svcs
    ∧ stored_for evs ≡ₚ (filter (λ p, answered p = true) waiting).*1
    ∧ created_for evs ≡ₚ (filter (λ p, creates_watch p = true) waiting).*1
    ∧ (∀ name nodes, (name, inr nodes) ∈ waiting →
         serviceStore w' !! name = Some (consulServiceToServiceInstance nodes)
         ∧ (ordinary name →
            ∃ h wt,
              props (watchers w') !! name = Some h
              ∧ (length (handles w) ≤ h)%nat
              ∧ handles w' !! h = Some wt
              ∧ method wt = HealthService name
              ∧ ended wt = false
              ∧ watch_options wt !! "service" = Some (Js.Str name)
              ∧ watch_options wt !! "timeout" = Some (Js.Num WATCH_TIMEOUT)
              ∧ watch_options wt !! "wait" = Some (Js.Str "5m")))
    ∧ (∀ name e, (name, inl e) ∈ waiting →
         serviceStore w' !! name = serviceStore w !! name
         ∧ props (watchers w') !! name = None)
    ∧ (∀ name, name ∉ svcs →
         serviceStore w' !! name = serviceStore w !! name
         ∧ props (watchers w') !! name = None)
    ∧ ((∀ p, p ∈ waiting → answered p = true ∧ ordinary p.1) → out = Return tt).
Proof.
  intros svcs waiting Hlisted Harr Hc.
  destruct (rebuild_in_any_order arrival listed data w b Hlisted Harr Hc)
    as (w' & evs & Hrun & Htrace & Hset & Hnames & Hstored & Hcreated & Hans & Hrej
        & Hkeep).
  exists (Promise_all (callback_outcome <$> arrival waiting) w').1, w', evs.
  split; [exact Hrun |]. split; [exact Htrace |]. split; [exact Hset |].
  split; [exact Hnames |]. split; [exact Hstored |]. split; [exact Hcreated |].
  split; [exact Hans |]. split; [exact Hrej |]. split; [exact Hkeep |].
  intros Hall. rewrite Promise_all_resolved; [reflexivity |].
  apply Forall_fmap, Forall_forall. intros [name answer] Hin.
  rewrite (Harr waiting) in Hin. destruct (Hall _ Hin) as [Ha Ho].
  apply ordinary_inherited in Ho. simpl in *.
  unfold callback_outcome, answered in *. simpl in *.
  destruct answer; [discriminate Ha |]. rewrite Ho.
  destruct (String.eqb name "size") eqn:Hsize; [| reflexivity].
  apply String.eqb_eq in Hsize as ->. by vm_compute in Ho.
Qed.

(** *** A rebuild with a health query that fails *)

Lemma waiting_one_rejected bad e svcs :
  ∀ b : B,
    (∀ b0 : B, ∃ b1, health_service bad b0 = (inl e, b1)) →
    (∀ name (b0 : B), name ∈ svcs → name ≠ bad →
       ∃ nodes b1, health_service name b0 = (inr nodes, b1)) →
    Forall (λ p : Waiting, answered_except bad e p.1 p.2)
           (zip svcs (health_answers svcs b).1).
Proof.
  induction svcs as [|name svcs IH]; intros b Hbad Hans; [constructor |].
  rewrite health_answers_cons.
  destruct (health_service name b) as [r b1] eqn:Hq.
  specialize (IH b1 Hbad (λ n b0 Hn, Hans n b0 (list_elem_of_further _ _ _ Hn))).
  destruct (health_answers svcs b1) as [rs b2]. cbn [fst snd zip zip_with] in *.
  constructor; [| exact IH].
  unfold answered_except. cbn [fst snd].
  destruct (decide (name = bad)) as [-> | Hne].
  - destruct (Hbad b) as (b' & Hq'). congruence.
  - destruct (Hans name b) as (nodes & b' & Hq'); [by left | done |].
    exists nodes. congruence.
Qed.

Lemma callbacks_one_rejected bad e (l : list Waiting) :
  Forall (λ p : Waiting, answered_except bad e p.1 p.2) l →
  Forall ordinary l.*1 →
  (filter (λ p, answered p = true) l).*1 = filter (λ name, name ≠ bad) l.*1
  ∧ (filter (λ p, creates_watch p = true) l).*1 = filter (λ name, name ≠ bad) l.*1
  ∧ (∀ o, o ∈ callback_outcome <$> l → o = inr tt ∨ o = inl e)
  ∧ (bad ∈ l.*1 → inl e ∈ callback_outcome <$> l).
Proof.
  induction 1 as [|[name answer] l Hanswer _ IH]; intros Hord.
  - split; [reflexivity |]. split; [reflexivity |].
    split; [intros ? Hin | intros Hin]; by apply elem_of_nil in Hin.
  - simpl in Hord. apply Forall_cons in Hord as [Hname Hord].
    destruct (IH Hord) as (Hst & Hcr & Hall & Hin).
    apply ordinary_inherited in Hname.
    assert (Hsize : String.eqb name "size" = false).
    { destruct (String.eqb name "size") eqn:Hsize; [| reflexivity].
      apply String.eqb_eq in Hsize as ->. by vm_compute in Hname. }
    unfold answered_except in Hanswer. cbn [fst snd] in Hanswer.
    destruct (decide (name = bad)) as [-> | Hne].
    + subst answer.
      rewrite !(filter_cons_False _ (bad, inl e : Reply (list Js.Val))) by done.
      rewrite fmap_cons. cbn [fst].
      rewrite (filter_cons_False (λ name, name ≠ bad)) by (intros Hne; by apply Hne).
      split; [exact Hst |]. split; [exact Hcr |].
      split.
      * rewrite fmap_cons. intros o [-> | Ho]%elem_of_cons; [by right | by apply Hall].
      * intros _. rewrite fmap_cons. apply elem_of_cons. by left.
    + destruct Hanswer as [nodes ->].
      assert (Hcreates : creates_watch (name, inr nodes) = true).
      { unfold creates_watch, answered. cbn [fst snd]. by rewrite Hsize, Hname. }
      assert (Hout : callback_outcome (name, inr nodes) = inr tt).
      { unfold callback_outcome. cbn [fst snd]. by rewrite Hsize, Hname. }
      rewrite (filter_cons_True (λ p, answered p = true)) by done.
      rewrite (filter_cons_True (λ p, creates_watch p = true)) by done.
      rewrite !fmap_cons. cbn [fst].
      rewrite (filter_cons_True (λ name, name ≠ bad)) by done.
      rewrite Hout.
      split; [by rewrite Hst |]. split; [by rewrite Hcr |].
      split.
      * intros o [-> | Ho]%elem_of_cons; [by left | by apply Hall].
      * intros [Heq | Hb]%elem_of_cons; [done |].
        apply elem_of_cons. right. by apply Hin.
Qed.

Lemma Promise_all_one_error e outcomes w :
  (∀ o, o ∈ outcomes → o = inr tt ∨ o = inl e) →
  inl e ∈ outcomes →
  Promise_all outcomes w = (Throw e, w).
Proof.
  induction outcomes as [|o outs IH]; intros Hall Hin.
  - by apply elem_of_nil in Hin.
  - destruct (Hall o) as [-> | ->]; [by left | | reflexivity].
    simpl. apply IH.
    + intros o' Ho'. apply Hall. by right.
    + apply elem_of_cons in Hin as [Heq | Hin]; [discriminate Heq | exact Hin].
Qed.

(** X17. One health query that fails makes the whole rebuild reject,
    with that query's error, and yet the rebuild is carried out for
    every other name, in whatever order the keys are listed and the
    answers arrive: each other name of the catalog gets its store entry
    and its watch, once, while the service whose query failed gets no
    watch and keeps the store entry it had. *)
Theorem rebuild_with_a_failed_query
    (arrival : list Waiting → list Waiting) (listed : list string)
    (data : Js.Obj) bad e w b :
  let svcs := filter (λ value, value ≠ "consul") listed in
  listed ≡ₚ Js.keys data →
  (∀ l, arrival l ≡ₚ l) →
  consul (client w) = Some b →
  bad ∈ svcs →
  (∀ b0 : B, ∃ b1, health_service bad b0 = (inl e, b1)) →
  answers_health (B := B) (filter (λ name, name ≠ bad) svcs) →
  Forall ordinary svcs →
  ∃ w' evs,
    on_catalog_change_listed consulServiceToServiceInstance arrival listed w
    = (Throw e, w')
    ∧ trace w' = (trace w ++ evs)%list
    ∧ created_for evs ≡ₚ filter (λ name, name ≠ bad) svcs
    ∧ stored_for evs ≡ₚ filter (λ name, name ≠ bad) svcs
    ∧ serviceStore w' !! bad = serviceStore w !! bad
    ∧ props (watchers w') !! bad = None.
Proof.
  intros svcs Hlisted Harr Hc Hin Hbad Hans Hord.
  destruct (rebuild_in_any_order arrival listed data w b Hlisted Harr Hc)
    as (w' & evs & Hrun & Htrace & _ & Hnames & Hstored & Hcreated & _ & Hrej & _).
  fold svcs in Hrun, Hnames, Hstored, Hcreated, Hrej.
  set (waiting := zip svcs (health_answers svcs b).1) in *.
  assert (Hwaiting : Forall (λ p : Waiting, answered_except bad e p.1 p.2) waiting).
  { apply waiting_one_rejected; [exact Hbad |].
    intros name b0 Hname Hne. apply Hans. by apply list_elem_of_filter. }
  destruct (callbacks_one_rejected bad e waiting Hwaiting) as (Hst & Hcr & Hall & Hone);
    [by rewrite Hnames |].
  rewrite Hnames in Hst, Hcr, Hone.
  assert (Hout : Promise_all (callback_outcome <$> arrival waiting) w' = (Throw e, w')).
  { apply Promise_all_one_error.
    - intros o Ho. apply Hall. by rewrite <- (Harr waiting).
    - rewrite (Harr waiting). by apply Hone. }
  rewrite Hout in Hrun. cbn [fst] in Hrun.
  exists w', evs. split; [exact Hrun |]. split; [exact Htrace |].
  split; [by rewrite Hcreated, Hcr |]. split; [by rewrite Hstored, Hst |].
  apply (Hrej bad e).
  rewrite <- Hnames in Hin.
  apply list_elem_of_fmap in Hin as ([name answer] & Heq & Hp).
  simpl in Heq. subst name.
  rewrite Forall_forall in Hwaiting. specialize (Hwaiting _ Hp).
  unfold answered_except in Hwaiting. simpl in Hwaiting.
  destruct (decide (bad = bad)); [by subst | done].
Qed.

End Registry.

End RegistryFacts.

(** ** The properties on the test double *)

Module Scenarios.

Import Registry Double RegistryFacts.

(** A field of a concrete world, found by running the model. *)
Ltac evaluate :=
  match goal with
  | |- ?l = _ =>
    let v := eval vm_compute in l in
    transitivity v; [vm_compute; reflexivity | reflexivity]
  end.

(** Membership in a list found by running the model. *)
Ltac evaluate_list :=
  match goal with
  | |- _ ∈ ?l =>
    let v := eval vm_compute in l in
    let Hv := fresh in
    assert (Hv : l = v) by (vm_compute; reflexivity); rewrite Hv; clear Hv
  end.

Lemma always_fails_rejects (n : nat) (b : Backend) :
  register_plan b = always_fails → rejects n refused b.
Proof.
  revert b. induction n as [|n IH]; intros b Hplan; [exact I |].
  intros svc. eexists. split.
  - simpl. rewrite Hplan. reflexivity.
  - by apply IH.
Qed.

Lemma fails_first_then_accepts (n : nat) :
  ∀ b, (∀ k, register_plan b (register_calls b + k) = fails_first n k) →
       fails_then_accepts n b.
Proof.
  induction n as [|n IH]; intros b Hplan.
  - intros svc. eexists. simpl.
    by rewrite <- (Nat.add_0_r (register_calls b)), Hplan.
  - intros svc. exists refused. eexists. split.
    + simpl. by rewrite <- (Nat.add_0_r (register_calls b)), Hplan.
    + apply IH. intros k. simpl.
      transitivity (register_plan b (register_calls b + S k));
        [f_equal; lia | apply Hplan].
Qed.

Lemma maintenance_marked_other (id : string) (cs : list Check) (rest : list Check) :
  maintenance_marked id (filter (λ c, Name c ≠ MAINTENANCE) cs ++ rest)
  = maintenance_marked id rest.
Proof.
  induction cs as [|c cs IH]; [done |].
  rewrite filter_cons. destruct (decide (Name c ≠ MAINTENANCE)) as [Hne | _]; [| exact IH].
  simpl. rewrite IH.
  apply String.eqb_neq in Hne. rewrite Hne.
  by destruct (String.eqb (ServiceID c) id).
Qed.

Lemma maintenance_marked_markers (id sid : string) (ms : list string) :
  maintenance_marked id (map (marker sid) ms) = bool_decide (id ∈ ms).
Proof.
  induction ms as [|m ms IH]; [done |].
  simpl. rewrite IH. destruct (String.eqb m id) eqn:Hm.
  - apply String.eqb_eq in Hm as ->. symmetry. apply bool_decide_eq_true.
    apply elem_of_cons. by left.
  - apply String.eqb_neq in Hm. apply bool_decide_ext.
    rewrite elem_of_cons. split; [by right | by intros [-> | ?]].
Qed.

(** The double records maintenance the way the status calls expect. *)
Lemma double_records_maintenance (id sid : string) :
  records_maintenance (B := Backend) id sid.
Proof.
  intros enable b. eexists. split; [reflexivity |].
  eexists _, _. split; [reflexivity |]. simpl.
  rewrite <- maintenance_marked_spec,
    maintenance_marked_other, maintenance_marked_markers.
  destruct enable.
  - split; [done |]. intros _. apply bool_decide_eq_true.
    apply elem_of_cons. by left.
  - split; [| done]. intros Hin. apply bool_decide_eq_true in Hin.
    apply list_elem_of_filter in Hin. by destruct Hin.
Qed.


(** *** Wiring *)

(** C10 at a consul configuration whose discovery options set only the
    scheme: the injected discovery options carry failFast = true beside
    the caller's scheme. *)
Lemma failFast_defaults_to_true_for_consul :
  ∃ ps o d,
    ProviderUtil.getSharedProviderUtils inr (λ _, true) (wiring "consul")
    = ProviderUtil.Wired ps
    ∧ ProviderUtil.injected_options ps = Some o
    ∧ discovery o = Some d
    ∧ d !! "failFast" = Some (Js.Bool true)
    ∧ d !! "scheme" = Some (Js.Str "http").
Proof.
  destruct (ProviderUtilFacts.failFast_defaults_to_true inr (λ _, true)
              (wiring "consul") (wiring "consul") eq_refl) as [Hbackend _].
  destruct Hbackend as (ps & o & d & Hw & Ho & Hd & Hdefault & _ & _ & Hother).
  - apply elem_of_cons. by left.
  - reflexivity.
  - exists ps, o, d.
    split; [exact Hw |]. split; [exact Ho |]. split; [exact Hd |].
    split; [exact (Hdefault _ eq_refl eq_refl) |].
    apply (Hother "scheme"). discriminate.
Defined.

(** *** Initialisation *)

(** C7 at options that carry neither group. *)
Lemma init_refuses_bare_config :
  ∃ e, init build (fresh bare_config (backend always_fails))
       = (Throw e, fresh bare_config (backend always_fails))
       ∧ configuration_error e.
Proof.
  apply init_requires_option_groups. left. reflexivity.
Defined.

(** *** Registration *)

(** C1 at a started registry with fail-fast set and a backend that
    always refuses: eleven register calls. *)
Lemma failFast_register_makes_eleven_calls :
  ∃ w' evs,
    register (started (config (Some true) true) (backend always_fails))
    = (Throw refused, w')
    ∧ trace w'
      = (trace (started (config (Some true) true) (backend always_fails)) ++ evs)%list
    ∧ register_attempts evs = 11.
Proof.
  edestruct (failFast_register_uses_every_retry
               (started (config (Some true) true) (backend always_fails)))
    as (w' & evs & Hrun & Htrace & Hattempts & Heleven);
    [evaluate | evaluate | evaluate | evaluate | evaluate | |].
  - apply (always_fails_rejects max_attempts). reflexivity.
  - exists w', evs. split; [exact Hrun |]. split; [exact Htrace |].
    rewrite Hattempts. exact Heleven.
Defined.

(** The guard at work: with heartbeating disabled (fail-fast off, two
    refusals before the backend accepts) register() resolves and the
    instance is never added to a scheduler. *)
Lemma register_without_heartbeat_enrolls_nothing :
  let w := started (config (Some false) false) (backend (fails_first 2)) in
  Js.truthy (Js.opt_get (discovery (options w)) "failFast") = false
  ∧ fails_then_accepts 2 (backend (fails_first 2))
  ∧ (2 < max_attempts)%nat
  ∧ (register w).1 = Return tt
  ∧ register_attempts (trace (register w).2) = 3
  ∧ enrollments "orders-1" (trace (register w).2) = 0
  ∧ ttlScheduler (register w).2 = None.
Proof.
  split; [vm_compute; reflexivity |].
  split; [apply fails_first_then_accepts; intros k; reflexivity |].
  split; [unfold max_attempts; simpl; lia |].
  vm_compute. repeat split.
Qed.

(** The retry loop at three refusals with heartbeating enabled: four
    register calls and one enrollment. *)
Lemma register_retries_three_times_then_enrolls :
  ∃ w' evs,
    register (started (config (Some false) true) (backend (fails_first 3)))
    = (Return tt, w')
    ∧ register_attempts evs = 4
    ∧ enrollments "orders-1" evs = 1.
Proof.
  edestruct (register_retries_until_accepted 3
               (started (config (Some false) true) (backend (fails_first 3))))
    as (w' & evs & Hrun & _ & Hattempts & Henrolled);
    [evaluate | evaluate | evaluate | evaluate | evaluate | evaluate | | |].
  - apply fails_first_then_accepts. intros k. reflexivity.
  - unfold max_attempts. simpl. lia.
  - exists w', evs. split; [exact Hrun |]. split; [exact Hattempts |].
    match type of Henrolled with
    | _ = ?n => transitivity n; [exact Henrolled | vm_compute; reflexivity]
    end.
Defined.

(** C5 at a registry init sets up with heartbeating enabled, and three
    refusals before the backend accepts: register() resolves after four
    register calls and orders-1 is enrolled once. *)
Lemma register_of_orders_enrolls_once :
  ∃ w1 w' evs,
    init build (fresh (config (Some false) true) (backend (fails_first 3)))
    = (Return tt, w1)
    ∧ register w1 = (Return tt, w')
    ∧ register_attempts evs = 4
    ∧ enrollments "orders-1" evs = 1
    ∧ tasks <$> ttlScheduler w' = Some {[ "orders-1" ]}.
Proof.
  edestruct (register_retries_then_enrolls_once build 3
               (fresh (config (Some false) true) (backend (fails_first 3))))
    as (w1 & w' & evs & svc & Hinit & Hrun & _ & Hattempts & _ & _ & Henrolled
        & Hsched);
    [evaluate | reflexivity | evaluate | evaluate | evaluate | vm_compute; reflexivity
     | vm_compute; reflexivity | evaluate | | |].
  - apply fails_first_then_accepts. intros k. reflexivity.
  - unfold max_attempts. simpl. lia.
  - exists w1, w', evs. split; [exact Hinit |]. split; [exact Hrun |].
    split; [exact Hattempts |]. split; [exact Henrolled | exact Hsched].
Defined.

(** *** The module hooks *)

(** C3 fails as stated: with fail-fast set and a backend that refuses,
    onModuleInit returns normally; the refusal is logged, not thrown. *)
Lemma onModuleInit_swallows_failFast_rejection :
  let w := fresh (config (Some true) true) (backend always_fails) in
  Js.truthy (Js.opt_get (discovery (options w)) "failFast") = true
  ∧ rejects 1 refused (backend always_fails)
  ∧ (onModuleInit build w).1 = Return tt
  ∧ last (trace (onModuleInit build w).2) = Some (Logged ERROR (Thrown refused)).
Proof.
  split; [vm_compute; reflexivity |].
  split; [apply (always_fails_rejects 1); reflexivity |].
  vm_compute. repeat split.
Qed.

(** C3 as amended, on the same registry. *)
Lemma onModuleInit_logs_failFast_rejection :
  ∃ w', onModuleInit build (fresh (config (Some true) true) (backend always_fails))
        = (Return tt, w')
        ∧ Logged ERROR (Thrown refused) ∈ trace w'.
Proof.
  eapply (onModuleInit_contains_failFast_rejection build
            (fresh (config (Some true) true) (backend always_fails)));
    [evaluate | evaluate | evaluate | evaluate | evaluate | evaluate |].
  apply (always_fails_rejects 1). reflexivity.
Defined.

(** C4 fails as stated: on a registered registry whose catalog watch
    (handle 0) and per-service watches (handles 1 and 2) are running,
    shutdown issues the deregister call and stops none of them. *)
Lemma shutdown_leaves_watches_running :
  let w := after_first_change in
  watcher w = Some 0
  ∧ ended <$> handles w = [false; false; false]
  ∧ active_watches "orders" w = [1]
  ∧ active_watches "billing" w = [2]
  ∧ (onModuleDestroy w).1 = Return tt
  ∧ deregistrations (drop (length (trace w)) (trace (onModuleDestroy w).2)) = 1
  ∧ ended_handles (trace (onModuleDestroy w).2) = []
  ∧ ended <$> handles (onModuleDestroy w).2 = [false; false; false]
  ∧ active_watches "orders" (onModuleDestroy w).2 = [1]
  ∧ active_watches "billing" (onModuleDestroy w).2 = [2].
Proof. vm_compute. repeat split. Qed.

(** C4 as amended, on the same registry: the scheduler enrollment is
    removed, the deregister call is accepted, no handle is ended. *)
Lemma shutdown_only_deregisters :
  ∃ w',
    onModuleDestroy after_first_change = (Return tt, w')
    ∧ ended_handles (drop (length (trace after_first_change)) (trace w')) = []
    ∧ tasks <$> ttlScheduler after_first_change = Some {[ "orders-1" ]}
    ∧ tasks <$> ttlScheduler w' = Some ∅
    ∧ handles w' = handles after_first_change.
Proof.
  edestruct (shutdown_deregisters_and_stops_no_watch after_first_change)
    as (w' & r & Hrun & _ & Htrace & Hended & Hsched & Hhandles & _);
    [evaluate | evaluate |].
  exists w'. split; [exact Hrun |].
  split; [rewrite Htrace, drop_app_length; exact Hended |].
  split; [vm_compute; reflexivity |].
  split; [rewrite Hsched; vm_compute; reflexivity | exact Hhandles].
Defined.

(** *** Status *)

(** C9 on the double. *)
Lemma status_round_trip_on_double :
  ∃ w1 w2 w3 w4,
    setStatus "OUT_OF_SERVICE"
      (started (config (Some false) true) (backend (fails_first 0)))
    = (Return tt, w1)
    ∧ getStatus w1 = (Return {[ "status" := Js.Str "OUT_OF_SERVICE" ]}, w2)
    ∧ setStatus "UP" w2 = (Return tt, w3)
    ∧ getStatus w3 = (Return {[ "status" := Js.Str "UP" ]}, w4).
Proof.
  eapply (status_round_trip
            (started (config (Some false) true) (backend (fails_first 0))));
    [evaluate | evaluate |].
  apply double_records_maintenance.
Defined.

(** *** The watch engine *)

(** C8 fails as stated. On the registry that saw orders and billing, a
    catalog change that lists orders and shipping leaves the store entry
    of billing, with the instance it held, and the watch of billing
    running: what is there afterwards is not for exactly the names of
    the event. On a registry whose agent cannot answer for billing, a
    catalog that lists billing gives billing no entry and no watch. And
    a listed service called constructor gets an entry and no watch. *)
Lemma catalog_change_is_not_for_exactly_the_listed_names :
  let gone := (on_catalog_change convert catalog_without_billing billing_listed) in
  let failed := (on_catalog_change convert catalog billing_down) in
  let odd :=
    (on_catalog_change convert catalog_with_constructor
       (started (config (Some false) true) populated)) in
  (catalog_without_billing !! "billing" = None
   ∧ gone.1 = Return tt
   ∧ serviceStore gone.2 !! "billing" = Some [instance "billing-1"]
   ∧ active_watches "billing" gone.2 = [2])
  ∧ (is_Some (catalog !! "billing")
     ∧ serviceStore failed.2 !! "billing" = None
     ∧ active_watches "billing" failed.2 = []
     ∧ active_watches "orders" failed.2 = [0])
  ∧ (is_Some (catalog_with_constructor !! "constructor")
     ∧ serviceStore odd.2 !! "constructor" = Some []
     ∧ active_watches "constructor" odd.2 = []).
Proof.
  split; [| split].
  - vm_compute. by repeat split.
  - split; [by eexists |]. vm_compute. by repeat split.
  - split; [by eexists |]. vm_compute. by repeat split.
Qed.

(** C8 as amended, on the agent that reports an instance per service:
    the keys are listed and the answers arrive in reverse, and billing
    gets its entry and a running watch that polls billing. *)
Lemma catalog_change_rebuilds_billing_in_reverse :
  ∃ out w' evs h wt,
    on_catalog_change_listed convert reverse (reverse (Js.keys catalog))
      (started (config (Some false) true) populated)
    = (out, w')
    ∧ stored_for evs ≡ₚ ["orders"; "billing"]
    ∧ created_for evs ≡ₚ ["orders"; "billing"]
    ∧ serviceStore w' !! "billing" = Some [instance "billing-1"]
    ∧ props (watchers w') !! "billing" = Some h
    ∧ handles w' !! h = Some wt
    ∧ ended wt = false
    ∧ watch_options wt !! "service" = Some (Js.Str "billing").
Proof.
  edestruct (catalog_change_rebuilds_and_removes_nothing convert reverse
               (reverse (Js.keys catalog)) catalog
               (started (config (Some false) true) populated))
    as (out & w' & evs & Hrun & _ & _ & _ & Hstored & Hcreated & Hans & _);
    [apply reverse_Permutation | apply reverse_Permutation | evaluate |].
  destruct (Hans "billing" [instance "billing-1"]) as [Hstore Hwatch].
  { evaluate_list. apply elem_of_cons. by left. }
  destruct Hwatch as (h & wt & Hp & _ & Hwt & _ & Hended & Hservice & _);
    [vm_compute; reflexivity |].
  exists out, w', evs, h, wt. split; [exact Hrun |].
  split.
  { rewrite Hstored.
    match goal with
    | |- ?l ≡ₚ _ =>
      let v := eval vm_compute in l in
      assert (Hv : l = v) by (vm_compute; reflexivity); rewrite Hv
    end.
    apply Permutation_swap. }
  split.
  { rewrite Hcreated.
    match goal with
    | |- ?l ≡ₚ _ =>
      let v := eval vm_compute in l in
      assert (Hv : l = v) by (vm_compute; reflexivity); rewrite Hv
    end.
    apply Permutation_swap. }
  split; [exact Hstore |]. split; [exact Hp |]. split; [exact Hwt |].
  split; [exact Hended | exact Hservice].
Defined.

(** C2 at the second catalog change: orders is watched by the running
    handle 1, and after the rebuild by handle 1 and by another one. *)
Lemma rebuild_doubles_the_watch_of_orders :
  ∃ w' h wt,
    on_catalog_change convert catalog after_first_change = (Return tt, w')
    ∧ h ≠ 1
    ∧ ended <$> handles w' !! 1 = Some false
    ∧ handles w' !! h = Some wt
    ∧ watches_service "orders" wt = true.
Proof.
  edestruct (rebuild_ends_no_earlier_watch convert catalog after_first_change)
    as (w' & evs & Hrun & _ & _ & _ & _ & Htwo); [evaluate | | | evaluate |].
  - intros name b _. eexists _, _. reflexivity.
  - vm_compute. repeat constructor.
  - edestruct (Htwo "orders" 1) as (h & wt & Hne & Hkept & Hnew & Hrunning);
      [| evaluate | vm_compute; reflexivity |].
    + apply list_elem_of_filter. split; [discriminate |].
      apply JsFacts.elem_of_keys. eexists. evaluate.
    + exists w', h, wt. split; [exact Hrun |]. split; [exact Hne |].
      split; [by rewrite Hkept |]. by split.
Defined.

(** The failing run of C2 evaluated. The catalog watch fires twice with
    the same catalog. After the first change orders is watched by
    handle 1 and billing by handle 2; the second rebuild calls end() on
    no handle and creates handles 3 and 4, so two running watches drive
    the store slot of each name. *)
Example two_changes_leave_four_watches :
  active_watches "orders" after_first_change = [1]
  ∧ active_watches "billing" after_first_change = [2]
  ∧ ended_handles (trace after_second_change) = []
  ∧ active_watches "orders" after_second_change = [1; 3]
  ∧ active_watches "billing" after_second_change = [2; 4]
  ∧ map_to_list (props (watchers after_second_change))
    = [("orders", 3); ("billing", 4)].
Proof. vm_compute. repeat split. Qed.


(** ** Further scenarios *)

(** *** Wiring *)

(** X1 at a discoverer the utility has no branch for. *)
Lemma nacos_wires_no_registry :
  ProviderUtil.getSharedProviderUtils inr (λ _, true) (wiring "nacos")
  = ProviderUtil.Wired
      [ProviderUtil.Value ProviderUtil.SERVICE_REGISTRY_CONFIG ProviderUtil.EmptyObject;
       ProviderUtil.Class "ServiceStore"].
Proof.
  apply (ProviderUtilFacts.unknown_discoverer_wires_no_registry inr (λ _, true)
           (wiring "nacos") (wiring "nacos") eq_refl).
  intros Hin.
  repeat (apply elem_of_cons in Hin as [Hin | Hin]; [discriminate Hin |]).
  by apply elem_of_nil in Hin.
Defined.

(** X2 with no package installed: etcd exits, local is wired. *)
Lemma etcd_exits_and_local_is_wired_without_packages :
  ProviderUtil.getSharedProviderUtils inr (λ _, false) (wiring "etcd")
  = ProviderUtil.Exited 1
  ∧ ∃ ps, ProviderUtil.getSharedProviderUtils inr (λ _, false) (wiring "local")
          = ProviderUtil.Wired ps.
Proof.
  split.
  - apply (ProviderUtilFacts.missing_backend_package_exits inr (λ _, false)
             (wiring "etcd") (wiring "etcd") eq_refl);
      [| reflexivity].
    apply elem_of_cons. right. apply elem_of_cons. by left.
  - by apply (ProviderUtilFacts.missing_backend_package_exits inr (λ _, false)
                (wiring "local") (wiring "local") eq_refl).
Defined.

(** X3 at a zookeeper configuration without heartbeat options, and a
    validateOptions that fills them in: the filled-in heartbeat options
    are the ones injected. *)
Lemma zookeeper_wiring_injects_the_filled_heartbeat :
  ProviderUtil.cfg_heartbeat (wiring_without_heartbeat "zookeeper") = None
  ∧ ∃ classes o,
      ProviderUtil.getSharedProviderUtils_by_reference fills_heartbeat_in (λ _, true)
        (wiring_without_heartbeat "zookeeper")
      = ProviderUtil.Wired
          ((ProviderUtil.Class <$> classes)
             ++ [ProviderUtil.Value ProviderUtil.SERVICE_REGISTRY_CONFIG
                   (ProviderUtil.Options o);
                 ProviderUtil.Class "ServiceStore"])%list
      ∧ service o = Some orders
      ∧ heartbeat o = Some default_heartbeat.
Proof.
  split; [reflexivity |].
  destruct (ProviderUtilFacts.wiring_injects_the_validated_object fills_heartbeat_in
              (λ _, true) (wiring_without_heartbeat "zookeeper") _ eq_refl)
    as (classes & o & Hw & _ & Hs & Hh).
  - do 2 (apply elem_of_cons; right). apply elem_of_cons. by left.
  - reflexivity.
  - exists classes, o. split; [exact Hw |]. split; [exact Hs | exact Hh].
Defined.

(** *** Status and the generated service *)

(** X4 at a status Consul knows and the registry does not. *)
Lemma setStatus_refuses_DOWN :
  setStatus "DOWN" (started (config (Some false) true) (backend (fails_first 0)))
  = (Throw (Js.Err "Unknown status DOWN"),
     started (config (Some false) true) (backend (fails_first 0))).
Proof.
  apply (setStatus_refuses_unknown_status "DOWN"); discriminate.
Defined.

(** X5 at an instance whose TTL check is critical: the status read back
    is UP, since no maintenance marker is listed. *)
Lemma critical_check_reads_as_UP :
  ∃ w', getStatus (started (config (Some false) true) unhealthy)
        = (Return {[ "status" := Js.Str "UP" ]}, w').
Proof.
  edestruct (getStatus_reads_the_marker_only
               (started (config (Some false) true) unhealthy))
    as (out & Hrun & Hout);
    [evaluate | evaluate | vm_compute; reflexivity |].
  cbv beta iota in Hout. destruct Hout as [_ Hup].
  eexists. rewrite Hrun. f_equal. apply Hup.
  intros Hmarked. apply maintenance_marked_spec in Hmarked.
  vm_compute in Hmarked. discriminate Hmarked.
Defined.

(** X6 at the started registry: the generated service carries the
    builder's TTL check, and the port of the service options. *)
Lemma generated_orders_service :
  ∃ svc check,
    generateService (started (config (Some false) true) (backend (fails_first 0)))
    = (Return svc, started (config (Some false) true) (backend (fails_first 0)))
    ∧ svc !! "check" = Some (Js.Object check)
    ∧ check !! "ttl" = Some (Js.Str "30s")
    ∧ svc !! "port" = Some (Js.Num 3000).
Proof.
  edestruct (generateService_layers
               (started (config (Some false) true) (backend (fails_first 0))))
    as (svc & check & Hrun & _ & Hcheck & _ & Hkept & Hreg & _);
    [evaluate | evaluate |].
  exists svc, check. split; [exact Hrun |]. split; [exact Hcheck |].
  split.
  - eapply (Hkept _ "ttl"); [vm_compute; reflexivity | vm_compute; reflexivity |
                             discriminate].
  - apply Hreg; [discriminate | discriminate | vm_compute; reflexivity].
Defined.

(** *** The hooks *)

(** X7 at an initialised registry whose client has no consul instance:
    deregister returns, and the last thing logged is the TypeError. *)
Lemma deregister_without_connection_logs :
  ∃ w',
    deregister (init build (disconnected (config (Some false) true))).2
    = (Return tt, w')
    ∧ last (trace w')
      = Some (Logged ERROR
                (Thrown (Js.TypeError "Cannot read properties of undefined"))).
Proof.
  edestruct (deregister_is_best_effort
               (init build (disconnected (config (Some false) true))).2)
    as (w' & Hrun & _ & _ & _ & _ & _ & Hlast); [evaluate |].
  exists w'. split; [exact Hrun |]. apply Hlast. vm_compute. reflexivity.
Defined.

(** X8 at options without the two groups. *)
Lemma shutdown_after_bare_config_throws :
  ∃ e w',
    onModuleInit build (fresh bare_config (backend (fails_first 0))) = (Return tt, w')
    ∧ configuration_error e
    ∧ onModuleDestroy w'
      = (Throw (Js.TypeError "Cannot read properties of undefined"), w').
Proof.
  edestruct (shutdown_after_failed_init_throws build
               (fresh bare_config (backend (fails_first 0))))
    as (e & w' & Hrun & He & _ & _ & _ & Hdown);
    [reflexivity | left; reflexivity |].
  exists e, w'. split; [exact Hrun |]. split; [exact He | exact Hdown].
Defined.

(** X10 at a registry without a consul instance. *)
Lemma init_of_disconnected_registry :
  ∃ w' reg,
    init build (disconnected (config (Some false) true)) = (Return tt, w')
    ∧ registration w' = Some reg
    ∧ tasks <$> ttlScheduler w' = Some ∅
    ∧ watcher w' = None
    ∧ handles w' = [].
Proof.
  edestruct (init_without_connection_starts_no_watch build
               (disconnected (config (Some false) true)))
    as (w' & Hrun & Hreg & Hsched & Hwatcher & Hhandles & _);
    [evaluate | evaluate | evaluate | reflexivity |].
  eexists w', _. split; [exact Hrun |]. split; [exact Hreg |].
  split; [rewrite Hsched; vm_compute; reflexivity |].
  split; [exact Hwatcher | exact Hhandles].
Defined.

(** *** The retry loop *)

Lemma plan_rejects_with (es : list Js.Error) :
  ∀ b, (∀ k e, es !! k = Some e → register_plan b (register_calls b + k) = Some e) →
       rejects_with es b.
Proof.
  induction es as [|e es IH]; intros b Hplan; [exact I |].
  intros svc. eexists. split.
  - simpl. by rewrite <- (Nat.add_0_r (register_calls b)), (Hplan 0 e).
  - apply IH. intros k e' Hk. simpl.
    transitivity (register_plan b (register_calls b + S k));
      [f_equal; lia | by apply Hplan].
Qed.

(** X11 at a backend that refuses ten calls and lets the eleventh time
    out: register() rejects with the timeout, not with the refusal. *)
Lemma register_gives_up_with_the_timeout :
  ∃ w' evs,
    register (started (config (Some false) true) (backend refuses_then_times_out))
    = (Throw timed_out, w')
    ∧ register_attempts evs = 11
    ∧ enrollments "orders-1" evs = 0.
Proof.
  edestruct (register_gives_up_with_the_last_error
               (replicate 10 refused ++ [timed_out]) timed_out
               (started (config (Some false) true) (backend refuses_then_times_out)))
    as (w' & evs & Hrun & _ & Hattempts & Henrolled & _);
    [evaluate | evaluate | evaluate | evaluate | evaluate | | reflexivity
     | reflexivity |].
  - apply plan_rejects_with. intros k e.
    do 11 (destruct k as [|k]; [by intros [= <-] |]). discriminate.
  - exists w', evs. split; [exact Hrun |]. split; [exact Hattempts |].
    apply Henrolled.
Defined.

(** X12 at fail-fast with two refusals before the backend accepts:
    register() rejects with the refusal, and the third call registers
    and enrolls the instance all the same. *)
Lemma failFast_rejection_still_registers_orders :
  ∃ w' evs svc,
    register (started (config (Some true) true) (backend (fails_first 2)))
    = (Throw refused, w')
    ∧ register_attempts evs = 3
    ∧ AgentRegister svc (inr tt) ∈ evs
    ∧ enrollments "orders-1" evs = 1.
Proof.
  edestruct (failFast_register_rejects_yet_registers 1
               (started (config (Some true) true) (backend (fails_first 2))))
    as (e & w' & evs & svc & Hrun & _ & Hattempts & Hin & Henrolled);
    [evaluate | evaluate | evaluate | evaluate | evaluate | evaluate | | |].
  - apply fails_first_then_accepts. intros k. reflexivity.
  - unfold max_attempts. simpl. lia.
  - exists w', evs, svc.
    split.
    { rewrite Hrun. f_equal. f_equal.
      assert (Hfirst : (register
                          (started (config (Some true) true)
                             (backend (fails_first 2)))).1
                       = Throw refused) by (vm_compute; reflexivity).
      rewrite Hrun in Hfirst. simpl in Hfirst. by injection Hfirst. }
    split; [exact Hattempts |]. split; [exact Hin |].
    match type of Henrolled with
    | _ = ?n => transitivity n; [exact Henrolled | vm_compute; reflexivity]
    end.
Defined.

(** X13 at one refusal before the backend accepts: the instance is
    enrolled by the registration and no longer after deregistration. *)
Lemma orders_is_unenrolled_after_deregister :
  ∃ w1 w2,
    register (started (config (Some false) true) (backend (fails_first 1)))
    = (Return tt, w1)
    ∧ deregister w1 = (Return tt, w2)
    ∧ tasks <$> ttlScheduler w2 = Some ∅.
Proof.
  edestruct (register_then_deregister_unenrolls 1
               (started (config (Some false) true) (backend (fails_first 1))))
    as (w1 & w2 & Hrun1 & Hrun2 & Hsched & _);
    [evaluate | evaluate | evaluate | evaluate | evaluate | evaluate | | |].
  - apply fails_first_then_accepts. intros k. reflexivity.
  - unfold max_attempts. simpl. lia.
  - exists w1, w2. split; [exact Hrun1 |]. split; [exact Hrun2 |].
    rewrite Hsched. vm_compute. reflexivity.
Defined.

(** *** Watches *)

(** X14 at the registry after its first catalog change: watch(orders)
    ends handle 1 and stores another one, and a change event of the
    ended handle 1 still replaces the store entry of orders. *)
Lemma replaced_watch_of_orders_still_writes :
  ∃ w' h' w'',
    watch "orders" after_first_change = (Return tt, w')
    ∧ ended <$> handles w' !! 1 = Some true
    ∧ props (watchers w') !! "orders" = Some h'
    ∧ h' ≠ 1
    ∧ change_service convert 1 [Js.Null] w' = (Return tt, w'')
    ∧ serviceStore w'' !! "orders" = Some [Js.Null].
Proof.
  edestruct (replaced_watch_keeps_its_listener convert "orders" 1 [Js.Null]
               after_first_change)
    as (w' & h' & Hrun & _ & Hended & Hp & Hne & _ & Hwrites);
    [evaluate | evaluate | evaluate | reflexivity |].
  destruct (Hwrites 1) as (w'' & Hchange & Hstore); [by left |].
  exists w', h', w''. split; [exact Hrun |]. split; [exact Hended |].
  split; [exact Hp |]. split; [exact Hne |]. split; [exact Hchange |].
  rewrite Hstore. apply lookup_insert_eq.
Defined.

(** X15 at a service called constructor. *)
Lemma service_called_constructor_gets_no_watch :
  ∃ msg w',
    store_and_watch convert "constructor" (inr [])
      (started (config (Some false) true) (backend (fails_first 0)))
    = (Return (inl (Js.TypeError msg)), w')
    ∧ serviceStore w' !! "constructor" = Some []
    ∧ handles w'
      = handles (started (config (Some false) true) (backend (fails_first 0))).
Proof.
  edestruct (inherited_name_is_stored_but_not_watched convert "constructor" []
               (started (config (Some false) true) (backend (fails_first 0))))
    as (msg & w' & Hrun & Hstore & _ & Hhandles);
    [evaluate | vm_compute; reflexivity | vm_compute; reflexivity |].
  exists msg, w'. split; [exact Hrun |].
  split; [rewrite Hstore; apply lookup_insert_eq | exact Hhandles].
Defined.

(** X17 at an agent that cannot answer for billing, the answers arriving
    in reverse: the rebuild rejects, and orders is stored and watched
    all the same. *)
Lemma rebuild_with_billing_down :
  ∃ w' evs,
    on_catalog_change_listed convert reverse (Js.keys catalog) billing_down
    = (Throw unavailable, w')
    ∧ created_for evs ≡ₚ ["orders"]
    ∧ stored_for evs ≡ₚ ["orders"]
    ∧ serviceStore w' !! "billing" = None.
Proof.
  edestruct (rebuild_with_a_failed_query convert reverse (Js.keys catalog) catalog
               "billing" unavailable billing_down)
    as (w' & evs & Hrun & _ & Hcreated & Hstored & Hstore & _);
    [reflexivity | apply reverse_Permutation | reflexivity | | | | |].
  - apply list_elem_of_filter. split; [discriminate |].
    apply JsFacts.elem_of_keys. eexists. evaluate.
  - intros b0. eexists. reflexivity.
  - intros name b0 Hin. apply list_elem_of_filter in Hin as [Hne Hin].
    eexists _, _. simpl.
    rewrite bool_decide_eq_false_2; [reflexivity |].
    intros Hdown. apply elem_of_cons in Hdown as [-> | Hdown]; [done |].
    by apply elem_of_nil in Hdown.
  - vm_compute. repeat constructor.
  - exists w', evs. split; [exact Hrun |].
    split; [rewrite Hcreated; vm_compute; reflexivity |].
    split; [rewrite Hstored; vm_compute; reflexivity |].
    rewrite Hstore. reflexivity.
Defined.

(** *** Startup *)

(** X18 at service options without a port. *)
Lemma startup_without_port_only_logs :
  onModuleInit build (fresh portless_config (backend (fails_first 0)))
  = (Return tt,
     set_trace [Logged ERROR (Thrown (Js.Err "port is required"))]
       (fresh portless_config (backend (fails_first 0)))).
Proof.
  eapply (startup_with_failing_builder_only_logs build
            (fresh portless_config (backend (fails_first 0))));
    [evaluate | evaluate | vm_compute; reflexivity].
Defined.

(** X19 at one refusal before the backend accepts. *)
Lemma startup_of_orders :
  ∃ w' evs,
    onModuleInit build (fresh (config (Some false) true) (backend (fails_first 1)))
    = (Return tt, w')
    ∧ trace w' = WatchCreated 0 CatalogServiceList :: evs
    ∧ register_attempts evs = 2
    ∧ enrollments "orders-1" evs = 1.
Proof.
  edestruct (startup_watches_the_catalog_then_registers build 1
               (fresh (config (Some false) true) (backend (fails_first 1))))
    as (w' & evs & Hrun & Htrace & Hattempts & Henrolled);
    [evaluate | evaluate | evaluate | vm_compute; reflexivity | evaluate | evaluate
     | | |].
  - apply fails_first_then_accepts. intros k. reflexivity.
  - unfold max_attempts. simpl. lia.
  - exists w', evs. split; [exact Hrun |]. split; [exact Htrace |].
    split; [exact Hattempts |].
    match type of Henrolled with
    | _ = ?n => transitivity n; [exact Henrolled | vm_compute; reflexivity]
    end.
Defined.

(** X20 at a client configured with the token secret. *)
Lemma token_of_the_watches_of_orders :
  let w := started_with_token "secret" (config (Some false) true)
             (backend (fails_first 0)) in
  (∃ w' wt,
     watch "orders" w = (Return tt, w')
     ∧ handles w' !! 1 = Some wt
     ∧ watch_options wt !! "token" = Some (Js.Str "secret"))
  ∧ (∃ wt, handles w !! 0 = Some wt
           ∧ method wt = CatalogServiceList
           ∧ watch_options wt !! "token" = None).
Proof.
  intros w.
  edestruct (token_goes_with_service_watches_only "orders" "secret" w)
    as [(w' & wt & Hrun & Hwt & _ & Htoken) _];
    [evaluate | evaluate | discriminate | vm_compute; reflexivity |].
  split.
  - exists w', wt. split; [exact Hrun |]. split; [exact Hwt | exact Htoken].
  - eexists. split; [evaluate |]. split; vm_compute; reflexivity.
Defined.

End Scenarios.
